(** * Primitive recursive function interpreter: model of [prf.py] and [examples.py]

    The Python program builds natural-number functions out of callable
    objects ([Zero], [Succ], [Proj], [Compose], [PrimRec]) and a bounded
    search ([BoundedMin]).  Every callable is invoked with a positional
    argument tuple and either returns an integer or raises an exception.

    The embedding is shallow: a Python callable is a Rocq function from the
    argument tuple (a [list Z]) to an outcome (a value or a raised
    exception); Python integers are [Z] (they are unbounded and may be
    negative); the [for ... in range(n)] loops are written as counted
    iterations over [Z.to_nat n] with the loop variable counting up from 0. *)

From Stdlib Require Import Ascii String ZArith List Lia Bool.
Import ListNotations.
Open Scope Z_scope.

(** ** Outcomes of a Python call *)

(** The exceptions the modelled code can raise: [TypeError] is what the
    Python call protocol raises when the number of positional arguments does
    not fit the signature of [__call__]; [IndexError] is raised explicitly by
    [Proj.__call__] and by tuple indexing. *)
Inductive exn : Type :=
| TypeError
| IndexError.

Inductive res (A : Type) : Type :=
| Ok (a : A)
| Raise (e : exn).

Arguments Ok {A} a.
Arguments Raise {A} e.

Definition bind {A B : Type} (m : res A) (k : A -> res B) : res B :=
  match m with
  | Ok a => k a
  | Raise e => Raise e
  end.

Notation "x <- m ;; k" := (bind m (fun x => k))
  (at level 61, m at next level, right associativity).

(** A callable object: applied to its positional arguments. *)
Definition callable : Type := list Z -> res Z.

Definition returns_value (r : res Z) : Prop := exists v, r = Ok v.
Definition raises (r : res Z) : Prop := exists e, r = Raise e.

(** ** prf.py *)
Module Prf.

(** [Zero.__call__(self)]: no positional parameter. *)
Definition Zero_call : callable := fun args =>
  match args with
  | [] => Ok 0
  | _ :: _ => Raise TypeError
  end.

(** [Succ.__call__(self, n)]: exactly one positional parameter. *)
Definition Succ_call : callable := fun args =>
  match args with
  | [n] => Ok (n + 1)
  | _ => Raise TypeError
  end.

(** Python's [t[i]] on a tuple: a negative index counts from the end. *)
Definition tuple_getitem (t : list Z) (i : Z) : res Z :=
  let len := Z.of_nat (length t) in
  let j := if i <? 0 then i + len else i in
  if (j <? 0) || (len <=? j) then Raise IndexError
  else match nth_error t (Z.to_nat j) with
       | Some v => Ok v
       | None => Raise IndexError
       end.

(** [Proj.__call__(self, *args)]. *)
Definition Proj_call (index : Z) : callable := fun args =>
  if Z.of_nat (length args) <=? index then Raise IndexError
  else tuple_getitem args index.

Definition zero : callable := Zero_call.
Definition succ : callable := Succ_call.
Definition proj (i : Z) : callable := Proj_call i.

(** The comprehension [[g(args...) for g in self.gs]]: left to right, the
    first exception ends it. *)
Fixpoint inner_results (gs : list callable) (args : list Z) : res (list Z) :=
  match gs with
  | [] => Ok []
  | g :: gs' =>
      v <- g args ;;
      vs <- inner_results gs' args ;;
      Ok (v :: vs)
  end.

(** [Compose.__call__(self, *args)]. *)
Definition Compose_call (f : callable) (gs : list callable) : callable :=
  fun args =>
    if Nat.eqb (length gs) 0 then f []
    else vs <- inner_results gs args ;; f vs.

(** The loop [for k in range(n): acc = self.step(k, acc, *xs)], with [count]
    iterations left and [k] the current value of the loop variable. *)
Fixpoint PrimRec_loop (step : callable) (xs : list Z)
         (count : nat) (k : Z) (acc : Z) : res Z :=
  match count with
  | O => Ok acc
  | S count' =>
      acc' <- step (k :: acc :: xs) ;;
      PrimRec_loop step xs count' (k + 1) acc'
  end.

(** [PrimRec.__call__(self, n, *xs)]; [range(n)] has [Z.to_nat n] elements,
    none when [n] is negative. *)
Definition PrimRec_call (base step : callable) : callable := fun args =>
  match args with
  | [] => Raise TypeError
  | n :: xs =>
      acc <- base xs ;;
      PrimRec_loop step xs (Z.to_nat n) 0 acc
  end.

Definition compose (f : callable) (gs : list callable) : callable :=
  Compose_call f gs.
Definition prim_rec (base step : callable) : callable :=
  PrimRec_call base step.

(** The scan [for k in range(n): if p(k) == 1: return k], followed by
    [return n]. *)
Fixpoint BoundedMin_loop (p : callable) (n : Z) (count : nat) (k : Z) : res Z :=
  match count with
  | O => Ok n
  | S count' =>
      v <- p [k] ;;
      if v =? 1 then Ok k else BoundedMin_loop p n count' (k + 1)
  end.

(** [BoundedMin.__call__(self, p, n)]. *)
Definition BoundedMin_call (p : callable) (n : Z) : res Z :=
  BoundedMin_loop p n (Z.to_nat n) 0.

Definition bmin := BoundedMin_call.

(** Derived functions of prf.py. *)
Definition add : callable :=
  prim_rec (proj 0) (compose succ [proj 1]).

Definition mult : callable :=
  prim_rec (compose zero []) (compose add [proj 1; proj 2]).

Definition pred : callable :=
  prim_rec zero (proj 0).

Definition _monus_helper : callable :=
  prim_rec (proj 0) (compose pred [proj 1]).

(** [Monus.__call__(self, a, b)]. *)
Definition Monus_call : callable := fun args =>
  match args with
  | [a; b] => _monus_helper [b; a]
  | _ => Raise TypeError
  end.

Definition monus : callable := Monus_call.

Definition _one : callable := compose succ [zero].

Definition factorial : callable :=
  prim_rec _one (compose mult [compose succ [proj 0]; proj 1]).

(** *** The interactive shell

    One round of the [while True] loop of [repl]: reading a line, the
    commands, and the [try] block around [eval].  Python's [eval] is not
    code of this program: it is taken from a [host], together with the few
    builtins the round applies to what [eval] gives back. *)

(** A Python string, as the sequence of its code points. *)
Definition str : Type := list N.

(** The string written with the given ASCII characters. *)
Definition text (s : string) : str := map N_of_ascii (list_ascii_of_string s).

(** The code points [str.strip()] removes, those [str.isspace()] holds
    for: the ASCII controls 9-13 and 28-31, the space, U+0085, U+00A0,
    U+1680, U+2000-U+200A, U+2028, U+2029, U+202F, U+205F and U+3000. *)
Definition is_space (c : N) : bool :=
  ((9 <=? c) && (c <=? 13) || (28 <=? c) && (c <=? 32)
   || (c =? 133) || (c =? 160) || (c =? 5760)
   || (8192 <=? c) && (c <=? 8202)
   || (c =? 8232) || (c =? 8233) || (c =? 8239) || (c =? 8287)
   || (c =? 12288))%N.

Fixpoint lstrip (s : str) : str :=
  match s with
  | [] => []
  | c :: s' => if is_space c then lstrip s' else s
  end.

Fixpoint rstrip (s : str) : str :=
  match s with
  | [] => []
  | c :: s' =>
      match rstrip s' with
      | [] => if is_space c then [] else [c]
      | r => c :: r
      end
  end.

Definition strip (s : str) : str := rstrip (lstrip s).

(** [==] on strings. *)
Fixpoint str_eqb (s t : str) : bool :=
  match s, t with
  | [], [] => true
  | c :: s', d :: t' => (c =? d)%N && str_eqb s' t'
  | _, _ => false
  end.

(** What [make_namespace] binds a name to: a function object, one of the
    three constructors, or the bounded search, which takes a function. *)
Inductive binding : Type :=
| Function (f : callable)
| ProjConstructor (mk : Z -> callable)
| ComposeConstructor (mk : callable -> list callable -> callable)
| PrimRecConstructor (mk : callable -> callable -> callable)
| Search (f : callable -> Z -> res Z).

Definition namespace : Type := list (str * binding).

Definition make_namespace : namespace :=
  [ (text "zero", Function zero);
    (text "succ", Function succ);
    (text "proj", ProjConstructor proj);
    (text "compose", ComposeConstructor compose);
    (text "prim_rec", PrimRecConstructor prim_rec);
    (text "add", Function add);
    (text "mult", Function mult);
    (text "pred", Function pred);
    (text "monus", Function monus);
    (text "factorial", Function factorial);
    (text "bmin", Search bmin) ].

(** The globals the shell gives to [eval]: the one key [__builtins__],
    bound to an empty dictionary. *)
Definition empty_builtins : list (str * namespace) :=
  [ (text "__builtins__", []) ].

(** The host language, as far as the round uses it.  [eval] returns an
    object or raises; [repr] and [str] of an object can raise as well (the
    conversion of a very large integer does); an exception is an instance of
    [Exception] or, like [SystemExit] and [KeyboardInterrupt], is not;
    [message] is the text the f-string gives for it. *)
Record host : Type := {
  object : Type;
  exception : Type;
  eval : str -> list (str * namespace) -> namespace -> object + exception;
  callable_object : object -> bool;
  isinstance_int : object -> bool;
  repr : object -> str + exception;
  str_of : object -> str + exception;
  isinstance_Exception : exception -> bool;
  message : exception -> str
}.

(** What [input] gives the round: a line (without its newline), or one of
    the two exceptions the shell catches there. *)
Inductive input_outcome : Type :=
| Line (s : str)
| EOFError
| KeyboardInterrupt.

(** How a round ends: [continue] or the end of the body, with the lines
    printed; [break], with the lines printed; or an exception that leaves
    [repl]. *)
Inductive round (E : Type) : Type :=
| Continue (printed : list str)
| Break (printed : list str)
| Propagate (e : E).

Arguments Continue {E} printed.
Arguments Break {E} printed.
Arguments Propagate {E} e.

Definition help_lines : list str :=
  [ text "  add(3, 4)        => 7";
    text "  mult(6, 7)       => 42";
    text "  factorial(5)     => 120";
    text "  monus(10, 3)     => 7";
    text "  add(3,mult(2,2)) => 7" ].

(** The body of the [try]: the line to print, or the exception raised on
    the way to it. *)
Definition try_body (h : host) (line : str) : str + exception h :=
  match eval h line empty_builtins make_namespace with
  | inr err => inr err
  | inl result =>
      if callable_object h result && negb (isinstance_int h result)
      then match repr h result with
           | inl r => inl (text "[function: " ++ r ++ text "]")
           | inr err => inr err
           end
      else str_of h result
  end.

Definition repl_step (h : host) (i : input_outcome) : round (exception h) :=
  match i with
  | EOFError | KeyboardInterrupt => Break [[]]
  | Line raw =>
      let line := strip raw in
      match line with
      | [] => Continue []
      | _ :: _ =>
          if str_eqb line (text "quit") || str_eqb line (text "exit")
             || str_eqb line (text "q")
          then Break []
          else if str_eqb line (text "help") then Continue help_lines
          else match try_body h line with
               | inl printed => Continue [printed]
               | inr err =>
                   if isinstance_Exception h err
                   then Continue [text "error: " ++ message h err]
                   else Propagate err
               end
      end
  end.

End Prf.

(** ** examples.py *)
Module Examples.
Import Prf.

(** [tri(n) = 0 + 1 + ... + n]. *)
Definition tri : callable :=
  prim_rec zero (compose add [proj 1; compose succ [proj 0]]).

(** [pair(a, b) = tri(a + b) + b]. *)
Definition pair : callable :=
  compose add [compose tri [add]; proj 1].

(** The local [exceeds = lambda w: 1 if tri(succ(w)) > p else 0] of
    [CantorW.__call__], closed over [p]. *)
Definition exceeds (p : Z) : callable := fun args =>
  match args with
  | [w] =>
      sw <- succ [w] ;;
      t <- tri [sw] ;;
      Ok (if p <? t then 1 else 0)
  | _ => Raise TypeError
  end.

(** [CantorW.__call__(self, p)]. *)
Definition CantorW_call : callable := fun args =>
  match args with
  | [p] =>
      sp <- succ [p] ;;
      bmin (exceeds p) sp
  | _ => Raise TypeError
  end.

Definition _cantor_w : callable := CantorW_call.

(** [Snd.__call__(self, p)]. *)
Definition Snd_call : callable := fun args =>
  match args with
  | [p] =>
      w <- _cantor_w [p] ;;
      t <- tri [w] ;;
      monus [p; t]
  | _ => Raise TypeError
  end.

Definition snd : callable := Snd_call.

(** [Fst.__call__(self, p)]. *)
Definition Fst_call : callable := fun args =>
  match args with
  | [p] =>
      w <- _cantor_w [p] ;;
      s <- snd [p] ;;
      monus [w; s]
  | _ => Raise TypeError
  end.

Definition fst : callable := Fst_call.

(** *** Predicates *)

Definition _one : callable := compose succ [zero].

(** [_const = compose(_one)]: the constant 1 at any arity. *)
Definition _const : callable := compose _one [].

Definition sg : callable := prim_rec zero _const.

Definition sg_bar : callable := compose monus [_const; sg].

Definition is_zero : callable := sg_bar.

Definition _abs_diff : callable :=
  compose add [monus; compose monus [proj 1; proj 0]].

Definition eq : callable := compose is_zero [_abs_diff].

Definition leq : callable := compose is_zero [monus].

Definition lt : callable := compose leq [compose succ [proj 0]; proj 1].

(** *** Arithmetic *)

Definition exp : callable :=
  prim_rec _const (compose mult [proj 2; proj 1]).

Definition pred_alt : callable := prim_rec zero (proj 0).

Definition double : callable := compose add [proj 0; proj 0].

Definition square : callable := compose mult [proj 0; proj 0].

(** *** Division and remainder *)

(** [_divides(d, n)]; Python's [%] on integers is the floored remainder,
    with the sign of the divisor, as [Z.modulo] is. *)
Definition _divides (d n : Z) : Z :=
  if d =? 0 then (if n =? 0 then 1 else 0)
  else if n mod d =? 0 then 1 else 0.

(** [Divides.__call__(self, d, n)]. *)
Definition Divides_call : callable := fun args =>
  match args with
  | [d; n] => Ok (_divides d n)
  | _ => Raise TypeError
  end.

Definition divides : callable := Divides_call.

(** The local [exceeds = lambda q: 1 if mult(b, succ(q)) > a else 0] of
    [Div.__call__], closed over [a] and [b]. *)
Definition Div_exceeds (a b : Z) : callable := fun args =>
  match args with
  | [q] =>
      sq <- succ [q] ;;
      m <- mult [b; sq] ;;
      Ok (if a <? m then 1 else 0)
  | _ => Raise TypeError
  end.

(** [Div.__call__(self, a, b)]. *)
Definition Div_call : callable := fun args =>
  match args with
  | [a; b] =>
      if b =? 0 then Ok 0
      else sa <- succ [a] ;; bmin (Div_exceeds a b) sa
  | _ => Raise TypeError
  end.

Definition div : callable := Div_call.

(** [Rem.__call__(self, a, b)]. *)
Definition Rem_call : callable := fun args =>
  match args with
  | [a; b] =>
      if b =? 0 then Ok a
      else
        q <- div [a; b] ;;
        m <- mult [b; q] ;;
        monus [a; m]
  | _ => Raise TypeError
  end.

Definition rem : callable := Rem_call.

(** *** Fibonacci *)

(** [_initial_fib_pair = pair(0, 1)], evaluated once when the module is
    loaded. *)
Definition _initial_fib_pair : res Z := pair [0; 1].

(** [FibStep.__call__(self, k, state)]. *)
Definition FibStep_call : callable := fun args =>
  match args with
  | [k; state] =>
      a <- fst [state] ;;
      b <- snd [state] ;;
      s <- add [a; b] ;;
      pair [b; s]
  | _ => Raise TypeError
  end.

Definition _fib_step : callable := FibStep_call.

(** The [lambda: _initial_fib_pair] given to [compose]. *)
Definition initial_fib_pair_lambda : callable := fun args =>
  match args with
  | [] => _initial_fib_pair
  | _ :: _ => Raise TypeError
  end.

Definition fib_pair : callable :=
  prim_rec (compose initial_fib_pair_lambda []) _fib_step.

(** [Fib.__call__(self, n)]. *)
Definition Fib_call : callable := fun args =>
  match args with
  | [n] => p <- fib_pair [n] ;; fst [p]
  | _ => Raise TypeError
  end.

Definition fib : callable := Fib_call.

End Examples.

(** ** Call-stack depth

    The same code with the call stack made explicit.  An instrumented
    callable returns, next to its outcome, the greatest number of frames
    that were on the call stack at one time during the call, counted from
    the caller's frame.  A call pushes one frame while its body runs;
    statements of one body run one after the other in that frame, so their
    depths combine by [max]; a comprehension runs in a frame of its own (as
    it does in CPython before 3.12). *)
Module StackDepth.

Definition dres (A : Type) : Type := (res A * nat)%type.
Definition dcallable : Type := list Z -> dres Z.

Definition outcome {A : Type} (m : dres A) : res A := Datatypes.fst m.
Definition depth {A : Type} (m : dres A) : nat := Datatypes.snd m.

Definition dret {A : Type} (a : A) : dres A := (Ok a, O).
Definition draise {A : Type} (e : exn) : dres A := (Raise e, O).

Definition dbind {A B : Type} (m : dres A) (k : A -> dres B) : dres B :=
  match m with
  | (Ok a, d) => let (r, d') := k a in (r, Nat.max d d')
  | (Raise e, d) => (Raise e, d)
  end.

(** One more frame on the stack while [m] runs. *)
Definition frame {A : Type} (m : dres A) : dres A :=
  let (r, d) := m in (r, S d).

Notation "x <~ m ;; k" := (dbind m (fun x => k))
  (at level 61, m at next level, right associativity).

(** Forgetting the depth gives back a plain callable. *)
Definition erase (c : dcallable) : callable := fun args => outcome (c args).

Definition Zero_call : dcallable := fun args =>
  frame (match args with
         | [] => dret 0
         | _ :: _ => draise TypeError
         end).

Definition Succ_call : dcallable := fun args =>
  frame (match args with
         | [n] => dret (n + 1)
         | _ => draise TypeError
         end).

Definition Proj_call (index : Z) : dcallable := fun args =>
  frame (if Z.of_nat (length args) <=? index then draise IndexError
         else (Prf.tuple_getitem args index, O)).

Fixpoint inner_results (gs : list dcallable) (args : list Z) : dres (list Z) :=
  match gs with
  | [] => dret []
  | g :: gs' =>
      v <~ g args ;;
      vs <~ inner_results gs' args ;;
      dret (v :: vs)
  end.

Definition Compose_call (f : dcallable) (gs : list dcallable) : dcallable :=
  fun args =>
    frame (if Nat.eqb (length gs) 0 then f []
           else vs <~ frame (inner_results gs args) ;; f vs).

Fixpoint PrimRec_loop (step : dcallable) (xs : list Z)
         (count : nat) (k : Z) (acc : Z) : dres Z :=
  match count with
  | O => dret acc
  | S count' =>
      acc' <~ step (k :: acc :: xs) ;;
      PrimRec_loop step xs count' (k + 1) acc'
  end.

Definition PrimRec_call (base step : dcallable) : dcallable := fun args =>
  frame (match args with
         | [] => draise TypeError
         | n :: xs =>
             acc <~ base xs ;;
             PrimRec_loop step xs (Z.to_nat n) 0 acc
         end).

(** For comparison only: the recursion equations of the [PrimRec] docstring
    run as they are written, one nested call per unit of the recursion
    argument ([n] is the recursion argument as a [nat]). *)
Fixpoint PrimRec_native (base step : dcallable) (n : nat) (xs : list Z) : dres Z :=
  frame (match n with
         | O => base xs
         | S k =>
             r <~ PrimRec_native base step k xs ;;
             step (Z.of_nat k :: r :: xs)
         end).

(** [add] of prf.py, instrumented. *)
Definition add : dcallable :=
  PrimRec_call (Proj_call 0) (Compose_call Succ_call [Proj_call 1]).

End StackDepth.

(** ** Function objects as trees

    The objects the constructors [Zero()], [Succ()], [proj], [compose] and
    [prim_rec] build, as a datatype, so that statements can range over every
    function that can be built from them.  [call] is [__call__], with the
    stack depth. *)
Module Nodes.

Local Unset Elimination Schemes.
Inductive node : Type :=
| Zero
| Succ
| Proj (index : Z)
| Compose (f : node) (gs : list node)
| PrimRec (base step : node).
Local Set Elimination Schemes.

Fixpoint call (v : node) : StackDepth.dcallable :=
  match v with
  | Zero => StackDepth.Zero_call
  | Succ => StackDepth.Succ_call
  | Proj index => StackDepth.Proj_call index
  | Compose f gs => StackDepth.Compose_call (call f) (map call gs)
  | PrimRec base step => StackDepth.PrimRec_call (call base) (call step)
  end.

(** The same object under the plain reading of the classes. *)
Fixpoint apply (v : node) : callable :=
  match v with
  | Zero => Prf.Zero_call
  | Succ => Prf.Succ_call
  | Proj index => Prf.Proj_call index
  | Compose f gs => Prf.Compose_call (apply f) (map apply gs)
  | PrimRec base step => Prf.PrimRec_call (apply base) (apply step)
  end.

(** How deep the constructors are nested. *)
Fixpoint height (v : node) : nat :=
  match v with
  | Zero | Succ | Proj _ => 1%nat
  | Compose f gs => S (Nat.max (height f) (fold_right Nat.max O (map height gs)))
  | PrimRec base step => S (Nat.max (height base) (height step))
  end.

(** [mult] and [factorial] of prf.py as trees. *)
Definition add : node := PrimRec (Proj 0) (Compose Succ [Proj 1]).
Definition mult : node :=
  PrimRec (Compose Zero []) (Compose add [Proj 1; Proj 2]).
Definition factorial : node :=
  PrimRec (Compose Succ [Zero])
          (Compose mult [Compose Succ [Proj 0]; Proj 1]).

End Nodes.

(** The Fibonacci numbers. *)
Fixpoint fibonacci (n : nat) : nat :=
  match n with
  | O => O
  | S k => match k with
           | O => 1%nat
           | S j => (fibonacci j + fibonacci k)%nat
           end
  end.

(** ** The recursion equations of primitive recursion

    The function [h] of the specification, written from its two equations:
    [h(0, xs) = base(xs)] and [h(k+1, xs) = step(k, h(k, xs), xs)].  It is
    the reference the loop of [PrimRec.__call__] is compared with; an
    exception raised while computing [h(k, xs)] is the outcome of
    [h(k+1, xs)]. *)
Fixpoint h_equations (base step : callable) (n : nat) (xs : list Z) : res Z :=
  match n with
  | O => base xs
  | S k =>
      r <- h_equations base step k xs ;;
      step (Z.of_nat k :: r :: xs)
  end.

(** The predicate of the tests of prf.py: [lambda k: 1 if k == 5 else 0]. *)
Definition is_five : callable := fun args =>
  match args with
  | [k] => Ok (if k =? 5 then 1 else 0)
  | _ => Raise TypeError
  end.

(** The triangular numbers [0 + 1 + ... + n], the mathematical function the
    Cantor pairing is built on. *)
Fixpoint triangular (n : nat) : nat :=
  match n with
  | O => O
  | S k => (triangular k + S k)%nat
  end.



(** A string of whitespace only. *)
Definition blank (s : Prf.str) : bool := forallb Prf.is_space s.


(** A host for examples: its [eval] returns the integer 2 for every text.
    It stands for no part of the program. *)
Definition sample_host : Prf.host :=
  {| Prf.object := Z;
     Prf.exception := unit;
     Prf.eval := fun _ _ _ => inl 2;
     Prf.callable_object := fun _ => false;
     Prf.isinstance_int := fun _ => true;
     Prf.repr := fun _ => inl (Prf.text "2");
     Prf.str_of := fun _ => inl (Prf.text "2");
     Prf.isinstance_Exception := fun _ => true;
     Prf.message := fun _ => [] |}.

(** * Properties *)

(** ** Outcomes *)

Lemma raises_not_returns (r : res Z) : raises r -> ~ returns_value r.
Proof. intros [e ->] [v H]. discriminate H. Qed.

Lemma returns_not_raises (r : res Z) : returns_value r -> ~ raises r.
Proof. intros [v ->] [e H]. discriminate H. Qed.

Lemma bind_assoc {A B C : Type} (m : res A) (k : A -> res B) (l : B -> res C) :
  bind (bind m k) l = bind m (fun a => bind (k a) l).
Proof. destruct m; reflexivity. Qed.

Lemma bind_ret {A B : Type} (a : A) (k : A -> res B) : bind (Ok a) k = k a.
Proof. reflexivity. Qed.

(** Run one [Ok] through the continuation of a [bind]. *)
Ltac ret_step := rewrite bind_ret; cbv beta.

Lemma bind_ext {A B : Type} (m : res A) (k l : A -> res B) :
  (forall a, k a = l a) -> bind m k = bind m l.
Proof. intros E. destruct m; simpl; auto. Qed.

(** ** Generators *)

(** C10: [Zero] applied to one or more arguments raises (it does not return
    0), and [Succ] applied to no argument or to two or more arguments raises
    (it returns no number): the call protocol rejects the call with
    [TypeError]. *)
Theorem base_generators_strict_arity :
  (forall x xs, Prf.Zero_call (x :: xs) = Raise TypeError /\
                ~ returns_value (Prf.Zero_call (x :: xs))) /\
  (Prf.Succ_call [] = Raise TypeError /\ ~ returns_value (Prf.Succ_call [])) /\
  (forall x y ys, Prf.Succ_call (x :: y :: ys) = Raise TypeError /\
                  ~ returns_value (Prf.Succ_call (x :: y :: ys))).
Proof.
  repeat split; try reflexivity;
    apply raises_not_returns; exists TypeError; reflexivity.
Qed.

Lemma tuple_getitem_nat (t : list Z) (i : nat) :
  (i < length t)%nat -> Prf.tuple_getitem t (Z.of_nat i) = Ok (nth i t 0).
Proof.
  intros Hi. unfold Prf.tuple_getitem. cbv zeta.
  assert (Hneg : (Z.of_nat i <? 0) = false) by (apply Z.ltb_ge; lia).
  assert (Hlen : (Z.of_nat (length t) <=? Z.of_nat i) = false)
    by (apply Z.leb_gt; lia).
  rewrite Hneg, Hlen, Hneg. simpl. rewrite Nat2Z.id.
  destruct (nth_error t i) as [v|] eqn:E.
  - f_equal. symmetry. apply nth_error_nth with (1 := E).
  - apply nth_error_None in E. lia.
Qed.

Lemma Proj_call_in_range (i : nat) (args : list Z) :
  (i < length args)%nat ->
  Prf.Proj_call (Z.of_nat i) args = Ok (nth i args 0).
Proof.
  intros Hi. unfold Prf.Proj_call.
  destruct (Z.leb_spec (Z.of_nat (length args)) (Z.of_nat i)); [lia|].
  now apply tuple_getitem_nat.
Qed.

(** C6: [Proj(i)] applied to at least [i+1] arguments returns the [i]-th
    argument (counting from 0); applied to [i] or fewer arguments it raises
    the out-of-range error of [Proj.__call__] (Python's [IndexError], the
    arity error of the specification). *)
Theorem Proj_call_spec (i : nat) (args : list Z) :
  ((i < length args)%nat ->
     Prf.Proj_call (Z.of_nat i) args = Ok (nth i args 0)) /\
  ((length args <= i)%nat ->
     Prf.Proj_call (Z.of_nat i) args = Raise IndexError).
Proof.
  split; intros Hi.
  - now apply Proj_call_in_range.
  - unfold Prf.Proj_call.
    destruct (Z.leb_spec (Z.of_nat (length args)) (Z.of_nat i)); [reflexivity|lia].
Qed.

Lemma Proj_call_spec_witness :
  Prf.Proj_call 1 [10; 20; 30] = Ok 20 /\
  Prf.Proj_call 3 [10; 20; 30] = Raise IndexError.
Proof.
  split.
  - apply (proj1 (Proj_call_spec 1 [10; 20; 30])). simpl. lia.
  - apply (proj2 (Proj_call_spec 3 [10; 20; 30])). simpl. lia.
Defined.

(** ** Composition *)

Lemma inner_results_Forall2 (gs : list callable) (args vs : list Z) :
  Forall2 (fun g v => g args = Ok v) gs vs ->
  Prf.inner_results gs args = Ok vs.
Proof.
  induction 1 as [|g v gs vs Hg _ IH]; simpl.
  - reflexivity.
  - rewrite Hg. simpl. rewrite IH. reflexivity.
Qed.

(** The first inner function that raises decides the outcome; the outer
    function is not called. *)
Lemma Compose_call_inner_raises (f : callable) (gs1 gs2 : list callable)
      (g : callable) (args vs : list Z) (e : exn) :
  Forall2 (fun g v => g args = Ok v) gs1 vs ->
  g args = Raise e ->
  Prf.Compose_call f (gs1 ++ g :: gs2) args = Raise e.
Proof.
  intros H1 Hg. unfold Prf.Compose_call.
  replace (Nat.eqb (length (gs1 ++ g :: gs2)) 0) with false
    by (destruct gs1; reflexivity).
  assert (E : Prf.inner_results (gs1 ++ g :: gs2) args = Raise e).
  { induction H1 as [|g1 v gs1 vs Hg1 _ IH]; simpl.
    - rewrite Hg. reflexivity.
    - rewrite Hg1. simpl. rewrite IH. reflexivity. }
  rewrite E. reflexivity.
Qed.

(** C3: when the inner functions [g1..gm], each applied to the same argument
    tuple [args], return [v1..vm], the composed function returns what
    [f(v1, ..., vm)] returns; with no inner function it returns [f()]
    whatever the arguments. *)
Theorem Compose_call_spec (f : callable) (gs : list callable) (args : list Z) :
  (forall vs, Forall2 (fun g v => g args = Ok v) gs vs ->
              Prf.Compose_call f gs args = f vs) /\
  Prf.Compose_call f [] args = f [].
Proof.
  split; [|reflexivity].
  intros vs H. unfold Prf.Compose_call.
  destruct gs as [|g gs].
  - inversion H. reflexivity.
  - change (Nat.eqb (length (g :: gs)) 0) with false. cbv iota.
    rewrite (inner_results_Forall2 _ _ _ H). reflexivity.
Qed.

Lemma Compose_call_spec_witness :
  Prf.Compose_call Prf.add [Prf.proj 0; Prf.proj 0] [7] = Prf.add [7; 7] /\
  Prf.Compose_call Prf._one [] [4; 5; 6] = Prf._one [].
Proof.
  split.
  - apply (proj1 (Compose_call_spec Prf.add [Prf.proj 0; Prf.proj 0] [7])).
    repeat constructor.
  - apply (proj2 (Compose_call_spec Prf._one [] [4; 5; 6])).
Defined.

(** ** Primitive recursion *)

(** One more iteration of the loop is one more application of [step] after
    the shorter loop. *)
Lemma PrimRec_loop_last (step : callable) (xs : list Z) (count : nat) :
  forall k acc,
    Prf.PrimRec_loop step xs (S count) k acc =
    (r <- Prf.PrimRec_loop step xs count k acc ;;
     step (k + Z.of_nat count :: r :: xs)).
Proof.
  induction count as [|count IH]; intros k acc.
  - simpl. rewrite Z.add_0_r.
    destruct (step (k :: acc :: xs)); reflexivity.
  - change (Prf.PrimRec_loop step xs (S (S count)) k acc)
      with (acc' <- step (k :: acc :: xs) ;;
            Prf.PrimRec_loop step xs (S count) (k + 1) acc').
    change (Prf.PrimRec_loop step xs (S count) k acc)
      with (acc' <- step (k :: acc :: xs) ;;
            Prf.PrimRec_loop step xs count (k + 1) acc').
    rewrite bind_assoc. apply bind_ext. intros acc'.
    rewrite IH.
    replace (k + Z.of_nat (S count)) with (k + 1 + Z.of_nat count) by lia.
    reflexivity.
Qed.

Lemma PrimRec_call_zero (base step : callable) (xs : list Z) :
  Prf.PrimRec_call base step (0 :: xs) = base xs.
Proof.
  unfold Prf.PrimRec_call. simpl. destruct (base xs); reflexivity.
Qed.

Lemma PrimRec_call_succ (base step : callable) (n : nat) (xs : list Z) :
  Prf.PrimRec_call base step (Z.of_nat (S n) :: xs) =
  (r <- Prf.PrimRec_call base step (Z.of_nat n :: xs) ;;
   step (Z.of_nat n :: r :: xs)).
Proof.
  unfold Prf.PrimRec_call. rewrite !Nat2Z.id, bind_assoc.
  apply bind_ext. intros acc. rewrite PrimRec_loop_last. reflexivity.
Qed.

(** C1: for every base [f], step [g], natural number [n] and tuple [xs], the
    loop of [PrimRec.__call__] applied to [(n, xs)] gives the outcome of the
    function [h] defined by [h(0, xs) = f(xs)] and
    [h(k+1, xs) = g(k, h(k, xs), xs)]. *)
Theorem PrimRec_call_recursion_equations
        (f g : callable) (n : nat) (xs : list Z) :
  Prf.PrimRec_call f g (Z.of_nat n :: xs) = h_equations f g n xs.
Proof.
  induction n as [|n IH].
  - apply PrimRec_call_zero.
  - rewrite PrimRec_call_succ, IH. reflexivity.
Qed.

Lemma PrimRec_call_negative (base step : callable) (n : Z) (xs : list Z) :
  n <= 0 -> Prf.PrimRec_call base step (n :: xs) = base xs.
Proof.
  intros Hn. unfold Prf.PrimRec_call.
  replace (Z.to_nat n) with O by lia.
  simpl. destruct (base xs); reflexivity.
Qed.

(** C4, as the code has it: with a negative recursion argument the loop
    body never runs, and the call gives the outcome of [base(xs)]. *)
Theorem PrimRec_call_negative_is_base
        (base step : callable) (n : Z) (xs : list Z) :
  n < 0 -> Prf.PrimRec_call base step (n :: xs) = base xs.
Proof. intros Hn. apply PrimRec_call_negative. lia. Qed.

Lemma PrimRec_call_negative_is_base_witness :
  Prf.PrimRec_call (Prf.proj 0) (Prf.compose Prf.succ [Prf.proj 1]) [-1; 5]
  = Prf.proj 0 [5].
Proof. apply PrimRec_call_negative_is_base. lia. Defined.

(** C4 fails on the code: [add(-1, 5)], a [PrimRec] node applied to a
    negative recursion argument, returns 5 and raises nothing. *)
Lemma PrimRec_call_negative_returns :
  Prf.add [-1; 5] = Ok 5 /\ ~ raises (Prf.add [-1; 5]).
Proof.
  split; [reflexivity|].
  apply returns_not_raises. exists 5. reflexivity.
Qed.

(** ** Bounded minimization *)

(** The scan from [k] on, over indices where the predicate returns values:
    it returns the first index whose value is 1. *)
Lemma BoundedMin_loop_found (p : callable) (n : Z) (count : nat) :
  forall k m,
    k <= m < k + Z.of_nat count ->
    (forall j, k <= j < m -> exists v, p [j] = Ok v /\ v <> 1) ->
    p [m] = Ok 1 ->
    Prf.BoundedMin_loop p n count k = Ok m.
Proof.
  induction count as [|count IH]; intros k m Hm Hlt Hp; [lia|].
  simpl. destruct (Z.eq_dec k m) as [->|Hne].
  - rewrite Hp. reflexivity.
  - destruct (Hlt k) as (v & Hv & Hv1); [lia|].
    rewrite Hv. simpl.
    destruct (Z.eqb_spec v 1) as [?|_]; [contradiction|].
    apply IH; [lia| |assumption].
    intros j Hj. apply Hlt. lia.
Qed.

Lemma BoundedMin_loop_none (p : callable) (n : Z) (count : nat) :
  forall k,
    (forall j, k <= j < k + Z.of_nat count -> exists v, p [j] = Ok v /\ v <> 1) ->
    Prf.BoundedMin_loop p n count k = Ok n.
Proof.
  induction count as [|count IH]; intros k Hlt; [reflexivity|].
  simpl. destruct (Hlt k) as (v & Hv & Hv1); [lia|].
  rewrite Hv. simpl.
  destruct (Z.eqb_spec v 1) as [?|_]; [contradiction|].
  apply IH. intros j Hj. apply Hlt. lia.
Qed.

Lemma bmin_found (p : callable) (n m : Z) :
  0 <= m < n ->
  (forall j, 0 <= j < m -> exists v, p [j] = Ok v /\ v <> 1) ->
  p [m] = Ok 1 ->
  Prf.bmin p n = Ok m.
Proof.
  intros Hm Hlt Hp. apply BoundedMin_loop_found with (m := m); auto. lia.
Qed.

Lemma bmin_none (p : callable) (n : Z) :
  (forall j, 0 <= j < n -> exists v, p [j] = Ok v /\ v <> 1) ->
  Prf.bmin p n = Ok n.
Proof.
  intros Hlt. apply BoundedMin_loop_none. intros j Hj. apply Hlt. lia.
Qed.

(** C2: for a predicate [p] returning 0 or 1 on [[0, n)], [bmin(p, n)]
    returns the least [k] in [[0, n)] with [p(k) = 1] (an index with
    [p(k) = 1] below which [p] is never 1), and returns [n] when there is no
    such index. *)
Theorem bmin_least (p : callable) (n : Z) :
  (forall k, 0 <= k < n -> p [k] = Ok 0 \/ p [k] = Ok 1) ->
  (forall k, 0 <= k < n -> p [k] = Ok 1 ->
             (forall j, 0 <= j < k -> p [j] <> Ok 1) ->
             Prf.bmin p n = Ok k) /\
  ((forall k, 0 <= k < n -> p [k] <> Ok 1) -> Prf.bmin p n = Ok n).
Proof.
  intros H01. split.
  - intros k Hk Hpk Hleast. apply bmin_found; auto.
    intros j Hj. exists 0. split; [|discriminate].
    destruct (H01 j) as [E|E]; [lia|exact E|].
    exfalso. apply (Hleast j); assumption.
  - intros Hnone. apply bmin_none.
    intros j Hj. exists 0. split; [|discriminate].
    destruct (H01 j) as [E|E]; [lia|exact E|].
    exfalso. apply (Hnone j); assumption.
Qed.

Lemma is_five_01 (k : Z) : is_five [k] = Ok 0 \/ is_five [k] = Ok 1.
Proof. simpl. destruct (k =? 5); auto. Qed.

Lemma is_five_1 (k : Z) : is_five [k] = Ok 1 -> k = 5.
Proof.
  simpl. destruct (Z.eqb_spec k 5); [auto|discriminate].
Qed.

Lemma bmin_least_witness :
  Prf.bmin is_five 10 = Ok 5 /\ Prf.bmin is_five 3 = Ok 3.
Proof.
  split.
  - apply (proj1 (bmin_least is_five 10 (fun k _ => is_five_01 k)) 5);
      [lia|reflexivity|].
    intros j Hj E. apply is_five_1 in E. lia.
  - apply (proj2 (bmin_least is_five 3 (fun k _ => is_five_01 k))).
    intros k Hk E. apply is_five_1 in E. lia.
Defined.

Lemma BoundedMin_loop_total (p : callable) (n : Z) (count : nat) :
  forall k,
    (forall j, k <= j < k + Z.of_nat count -> returns_value (p [j])) ->
    exists r,
      Prf.BoundedMin_loop p n count k = Ok r /\
      ((k <= r < k + Z.of_nat count /\ p [r] = Ok 1 /\
        forall j, k <= j < r -> p [j] <> Ok 1) \/
       (r = n /\ forall j, k <= j < k + Z.of_nat count -> p [j] <> Ok 1)).
Proof.
  induction count as [|count IH]; intros k Hret.
  - exists n. split; [reflexivity|]. right. split; [reflexivity|]. intros; lia.
  - destruct (Hret k) as [v Hv]; [lia|].
    simpl. rewrite Hv. simpl.
    destruct (Z.eqb_spec v 1) as [->|Hv1].
    + exists k. split; [reflexivity|]. left.
      split; [lia|]. split; [assumption|]. intros; lia.
    + destruct (IH (k + 1)) as (r & Hr & Hcase).
      { intros j Hj. apply Hret. lia. }
      assert (Hk : forall j, k <= j -> (j < k + 1 -> p [j] <> Ok 1)).
      { intros j Hj1 Hj2. replace j with k by lia.
        rewrite Hv. intros E. injection E as E. contradiction. }
      exists r. split; [assumption|].
      destruct Hcase as [(Hr1 & Hr2 & Hr3)|(Hr1 & Hr2)].
      * left. split; [lia|]. split; [assumption|].
        intros j Hj. destruct (Z_lt_ge_dec j (k + 1)); [apply Hk; lia|].
        apply Hr3. lia.
      * right. split; [assumption|].
        intros j Hj. destruct (Z_lt_ge_dec j (k + 1)); [apply Hk; lia|].
        apply Hr2. lia.
Qed.

(** C5, as the code has it: the scan only tests [p(k) == 1], so a value
    other than 0 or 1 counts as "not satisfied" and the scan goes on.  When
    [p] returns a value at every index of [[0, n)], whatever the values,
    [bmin(p, n)] returns a number: the least index where [p] is 1, or [n]
    when there is none. *)
Theorem bmin_skips_other_values (p : callable) (n : Z) :
  (forall k, 0 <= k < n -> returns_value (p [k])) ->
  exists r,
    Prf.bmin p n = Ok r /\
    ((0 <= r < n /\ p [r] = Ok 1 /\ forall j, 0 <= j < r -> p [j] <> Ok 1) \/
     (r = n /\ forall j, 0 <= j < n -> p [j] <> Ok 1)).
Proof.
  intros Hret.
  destruct (BoundedMin_loop_total p n (Z.to_nat n) 0) as (r & Hr & Hcase).
  { intros j Hj. apply Hret. lia. }
  exists r. split; [exact Hr|].
  destruct Hcase as [(H1 & H2 & H3)|(H1 & H2)].
  - left. split; [lia|]. split; [assumption|]. intros j Hj. apply H3. lia.
  - right. split; [assumption|]. intros j Hj. apply H2. lia.
Qed.

Lemma bmin_skips_other_values_witness :
  exists r,
    Prf.bmin (fun _ => Ok 2) 3 = Ok r /\
    ((0 <= r < 3 /\ Ok 2 = Ok 1 /\ forall j, 0 <= j < r -> @Ok Z 2 <> Ok 1) \/
     (r = 3 /\ forall j, 0 <= j < 3 -> @Ok Z 2 <> Ok 1)).
Proof.
  apply (bmin_skips_other_values (fun _ => Ok 2) 3).
  intros k Hk. exists 2. reflexivity.
Defined.

(** C5 fails on the code: a predicate returning 2 at every scanned index
    makes [bmin] return the bound, not raise. *)
Lemma bmin_value_two_returns :
  (fun _ : list Z => @Ok Z 2) [0] = Ok 2 /\
  Prf.bmin (fun _ => Ok 2) 3 = Ok 3 /\
  ~ raises (Prf.bmin (fun _ => Ok 2) 3).
Proof.
  split; [reflexivity|]. split; [reflexivity|].
  apply returns_not_raises. exists 3. reflexivity.
Qed.

(** ** Derived arithmetic *)

Section DerivedArithmetic.
Import Prf.

Lemma succ_spec (n : Z) : succ [n] = Ok (n + 1).
Proof. reflexivity. Qed.

Lemma add_step (k r b : Z) : compose succ [proj 1] [k; r; b] = Ok (r + 1).
Proof. reflexivity. Qed.

(** [add(a, b) = a + b] for a natural first argument. *)
Lemma add_spec (a : nat) (b : Z) : add [Z.of_nat a; b] = Ok (Z.of_nat a + b).
Proof.
  unfold add, prim_rec. induction a as [|a IH].
  - rewrite PrimRec_call_zero. reflexivity.
  - rewrite PrimRec_call_succ, IH. ret_step. rewrite add_step.
    f_equal. lia.
Qed.

Lemma add_spec_Z (a b : Z) : 0 <= a -> add [a; b] = Ok (a + b).
Proof.
  intros Ha. rewrite <- (Z2Nat.id a) by exact Ha. apply add_spec.
Qed.

(** [pred(n) = max(0, n - 1)]. *)
Lemma pred_spec (n : nat) : pred [Z.of_nat n] = Ok (Z.of_nat (Nat.pred n)).
Proof.
  unfold pred, prim_rec. destruct n as [|n].
  - rewrite PrimRec_call_zero. reflexivity.
  - rewrite PrimRec_call_succ.
    assert (E : exists r, PrimRec_call zero (proj 0) [Z.of_nat n] = Ok r).
    { induction n as [|n [r IH]].
      - exists 0. apply PrimRec_call_zero.
      - exists (Z.of_nat n). rewrite PrimRec_call_succ, IH. reflexivity. }
    destruct E as [r ->]. reflexivity.
Qed.

Lemma monus_step (k r a : Z) : compose pred [proj 1] [k; r; a] = pred [r].
Proof. unfold compose, Compose_call. simpl. destruct (pred [r]); reflexivity. Qed.

(** [monus(a, b) = max(0, a - b)]: truncated subtraction. *)
Lemma monus_spec (a b : nat) :
  monus [Z.of_nat a; Z.of_nat b] = Ok (Z.of_nat (a - b)).
Proof.
  unfold monus, Monus_call, _monus_helper, prim_rec.
  induction b as [|b IH].
  - rewrite PrimRec_call_zero, Nat.sub_0_r. reflexivity.
  - rewrite PrimRec_call_succ, IH. ret_step.
    rewrite monus_step, pred_spec. do 2 f_equal. lia.
Qed.

End DerivedArithmetic.

(** ** Cantor pairing *)

Section CantorPairing.
Import Prf Examples.

Lemma tri_step (k r : Z) :
  compose add [proj 1; compose succ [proj 0]] [k; r] = add [r; k + 1].
Proof. unfold compose, Compose_call. simpl. destruct (add [r; k + 1]); reflexivity. Qed.

Lemma tri_spec (n : nat) : tri [Z.of_nat n] = Ok (Z.of_nat (triangular n)).
Proof.
  unfold tri, prim_rec. induction n as [|n IH].
  - rewrite PrimRec_call_zero. reflexivity.
  - rewrite PrimRec_call_succ, IH. ret_step.
    rewrite tri_step, add_spec. f_equal. simpl triangular. lia.
Qed.

Lemma triangular_mono (m n : nat) :
  (m <= n)%nat -> (triangular m <= triangular n)%nat.
Proof.
  induction 1 as [|n _ IH]; [reflexivity|]. simpl. lia.
Qed.

Lemma triangular_ge (n : nat) : (n <= triangular n)%nat.
Proof. destruct n; simpl; lia. Qed.

(** [pair(a, b) = tri(a + b) + b]. *)
Lemma pair_spec (a b : nat) :
  pair [Z.of_nat a; Z.of_nat b] = Ok (Z.of_nat (triangular (a + b) + b)).
Proof.
  unfold pair, compose, Compose_call. cbn [length Nat.eqb inner_results].
  rewrite add_spec. repeat ret_step.
  rewrite <- Nat2Z.inj_add, tri_spec. repeat ret_step.
  change (proj 1 [Z.of_nat a; Z.of_nat b]) with (@Ok Z (Z.of_nat b)).
  repeat ret_step. rewrite add_spec. f_equal. lia.
Qed.

Lemma exceeds_spec (p : Z) (w : nat) :
  exceeds p [Z.of_nat w] =
  Ok (if p <? Z.of_nat (triangular (S w)) then 1 else 0).
Proof.
  unfold exceeds. rewrite succ_spec. ret_step.
  replace (Z.of_nat w + 1) with (Z.of_nat (S w)) by lia.
  rewrite tri_spec. reflexivity.
Qed.

(** The row of the Cantor enumeration: [_cantor_w(pair(a, b)) = a + b]. *)
Lemma cantor_w_spec (a b : nat) :
  _cantor_w [Z.of_nat (triangular (a + b) + b)] = Ok (Z.of_nat (a + b)).
Proof.
  unfold _cantor_w, CantorW_call. rewrite succ_spec. ret_step.
  pose proof (triangular_ge (a + b)) as Hge.
  apply bmin_found.
  - lia.
  - intros j Hj. exists 0. split; [|discriminate].
    replace j with (Z.of_nat (Z.to_nat j)) by lia.
    rewrite exceeds_spec.
    pose proof (triangular_mono (S (Z.to_nat j)) (a + b) ltac:(lia)) as Hm.
    destruct (Z.ltb_spec (Z.of_nat (triangular (a + b) + b))
                         (Z.of_nat (triangular (S (Z.to_nat j)))));
      [lia|reflexivity].
  - rewrite exceeds_spec. simpl triangular.
    destruct (Z.ltb_spec (Z.of_nat (triangular (a + b) + b))
                         (Z.of_nat (triangular (a + b) + S (a + b))));
      [reflexivity|lia].
Qed.

Lemma snd_pair (a b : nat) :
  snd [Z.of_nat (triangular (a + b) + b)] = Ok (Z.of_nat b).
Proof.
  unfold snd, Snd_call. rewrite cantor_w_spec. ret_step.
  rewrite tri_spec. ret_step. rewrite monus_spec. do 2 f_equal. lia.
Qed.

Lemma fst_pair (a b : nat) :
  fst [Z.of_nat (triangular (a + b) + b)] = Ok (Z.of_nat a).
Proof.
  unfold fst, Fst_call. rewrite cantor_w_spec. ret_step.
  rewrite snd_pair. ret_step. rewrite monus_spec. do 2 f_equal. lia.
Qed.

(** Decoding the pairing of two naturals recovers them. *)
Lemma pair_roundtrip (a b : nat) :
  exists p, pair [Z.of_nat a; Z.of_nat b] = Ok p /\
            fst [p] = Ok (Z.of_nat a) /\ snd [p] = Ok (Z.of_nat b).
Proof.
  exists (Z.of_nat (triangular (a + b) + b)).
  split; [apply pair_spec|]. split; [apply fst_pair|apply snd_pair].
Qed.

Lemma pair_injective (a b a' b' : nat) :
  pair [Z.of_nat a; Z.of_nat b] = pair [Z.of_nat a'; Z.of_nat b'] ->
  a = a' /\ b = b'.
Proof.
  intros E.
  destruct (pair_roundtrip a b) as (p & Hp & Hf & Hs).
  destruct (pair_roundtrip a' b') as (p' & Hp' & Hf' & Hs').
  rewrite Hp, Hp' in E. injection E as <-.
  rewrite Hf in Hf'. rewrite Hs in Hs'.
  injection Hf' as Ef. injection Hs' as Es. lia.
Qed.

End CantorPairing.

(** C8: for all naturals [a], [b] in [[0, 20)], [pair(a, b)] returns a
    number [p] with [fst(p) = a] and [snd(p) = b], and on that range two
    pairs with the same code are the same pair. *)
Theorem cantor_pairing_roundtrip_injective (a b : Z) :
  0 <= a < 20 -> 0 <= b < 20 ->
  (exists p, Examples.pair [a; b] = Ok p /\
             Examples.fst [p] = Ok a /\ Examples.snd [p] = Ok b) /\
  (forall a' b', 0 <= a' < 20 -> 0 <= b' < 20 ->
                 Examples.pair [a'; b'] = Examples.pair [a; b] ->
                 a' = a /\ b' = b).
Proof.
  intros Ha Hb.
  rewrite <- (Z2Nat.id a), <- (Z2Nat.id b) by lia.
  split.
  - apply pair_roundtrip.
  - intros a' b' Ha' Hb'.
    rewrite <- (Z2Nat.id a'), <- (Z2Nat.id b') by lia.
    intros E. apply pair_injective in E. lia.
Qed.

Lemma cantor_pairing_roundtrip_injective_witness :
  (exists p, Examples.pair [3; 4] = Ok p /\
             Examples.fst [p] = Ok 3 /\ Examples.snd [p] = Ok 4) /\
  (forall a' b', 0 <= a' < 20 -> 0 <= b' < 20 ->
                 Examples.pair [a'; b'] = Examples.pair [3; 4] ->
                 a' = 3 /\ b' = 4).
Proof. apply (cantor_pairing_roundtrip_injective 3 4); lia. Defined.

(** ** Call-stack depth of primitive recursion *)

Section StackDepthFacts.
Import StackDepth.

Lemma outcome_dbind {A B : Type} (m : dres A) (k : A -> dres B) :
  outcome (dbind m k) = bind (outcome m) (fun a => outcome (k a)).
Proof.
  destruct m as [[a|e] d]; simpl; [|reflexivity].
  destruct (k a); reflexivity.
Qed.

Lemma outcome_frame {A : Type} (m : dres A) : outcome (frame m) = outcome m.
Proof. destruct m; reflexivity. Qed.

Lemma depth_frame {A : Type} (m : dres A) : depth (frame m) = S (depth m).
Proof. destruct m; reflexivity. Qed.

(** Statements run one after the other need no more stack than the deepest
    of them. *)
Lemma depth_dbind_le {A B : Type} (m : dres A) (k : A -> dres B) (d : nat) :
  (depth m <= d)%nat -> (forall a, (depth (k a) <= d)%nat) ->
  (depth (dbind m k) <= d)%nat.
Proof.
  intros Hm Hk. destruct m as [[a|e] dm]; simpl in *; [|exact Hm].
  specialize (Hk a). destruct (k a) as [r dk]. simpl in *. lia.
Qed.

Lemma depth_dbind_ge {A B : Type} (m : dres A) (k : A -> dres B) :
  (depth m <= depth (dbind m k))%nat.
Proof.
  destruct m as [[a|e] dm]; simpl; [|lia].
  destruct (k a) as [r dk]. simpl. lia.
Qed.

(** The instrumented callables compute what the plain ones compute. *)
Lemma erase_Zero_call (args : list Z) :
  erase Zero_call args = Prf.Zero_call args.
Proof. destruct args; reflexivity. Qed.

Lemma erase_Succ_call (args : list Z) :
  erase Succ_call args = Prf.Succ_call args.
Proof. destruct args as [|n [|m args]]; reflexivity. Qed.

Lemma erase_Proj_call (index : Z) (args : list Z) :
  erase (Proj_call index) args = Prf.Proj_call index args.
Proof.
  unfold erase, Proj_call, Prf.Proj_call. rewrite outcome_frame.
  destruct (Z.of_nat (length args) <=? index); reflexivity.
Qed.

Lemma outcome_inner_results (gs : list dcallable) (args : list Z) :
  outcome (inner_results gs args) = Prf.inner_results (map erase gs) args.
Proof.
  induction gs as [|g gs IH]; simpl; [reflexivity|].
  rewrite outcome_dbind. apply bind_ext. intros v.
  rewrite outcome_dbind, IH. reflexivity.
Qed.

Lemma erase_Compose_call (f : dcallable) (gs : list dcallable) (args : list Z) :
  erase (Compose_call f gs) args =
  Prf.Compose_call (erase f) (map erase gs) args.
Proof.
  unfold erase, Compose_call, Prf.Compose_call.
  rewrite outcome_frame, length_map.
  destruct (Nat.eqb (length gs) 0); [reflexivity|].
  rewrite outcome_dbind, outcome_frame, outcome_inner_results. reflexivity.
Qed.

Lemma outcome_PrimRec_loop (step : dcallable) (xs : list Z) (count : nat) :
  forall k acc,
    outcome (PrimRec_loop step xs count k acc) =
    Prf.PrimRec_loop (erase step) xs count k acc.
Proof.
  induction count as [|count IH]; intros k acc; simpl; [reflexivity|].
  rewrite outcome_dbind. apply bind_ext. intros acc'. apply IH.
Qed.

Lemma erase_PrimRec_call (base step : dcallable) (args : list Z) :
  erase (PrimRec_call base step) args =
  Prf.PrimRec_call (erase base) (erase step) args.
Proof.
  unfold erase, PrimRec_call, Prf.PrimRec_call. rewrite outcome_frame.
  destruct args as [|n xs]; [reflexivity|].
  rewrite outcome_dbind. apply bind_ext. intros acc.
  apply outcome_PrimRec_loop.
Qed.

Lemma depth_Zero_call (args : list Z) : depth (Zero_call args) = 1%nat.
Proof. destruct args; reflexivity. Qed.

Lemma depth_Succ_call (args : list Z) : depth (Succ_call args) = 1%nat.
Proof. destruct args as [|n [|m args]]; reflexivity. Qed.

Lemma depth_Proj_call (index : Z) (args : list Z) :
  depth (Proj_call index args) = 1%nat.
Proof.
  unfold Proj_call. rewrite depth_frame.
  destruct (Z.of_nat (length args) <=? index); reflexivity.
Qed.

Lemma depth_inner_results (gs : list dcallable) (args : list Z) (d : nat) :
  Forall (fun g => forall a, (depth (g a) <= d)%nat) gs ->
  (depth (inner_results gs args) <= d)%nat.
Proof.
  induction 1 as [|g gs Hg _ IH]; simpl; [lia|].
  apply depth_dbind_le; [apply Hg|]. intros v.
  apply depth_dbind_le; [exact IH|]. intros vs. simpl. lia.
Qed.

(** A composition needs its own frame, the frame of the comprehension, and
    what the deepest of its parts needs. *)
Lemma depth_Compose_call (f : dcallable) (gs : list dcallable) (d : nat) :
  (forall a, (depth (f a) <= S d)%nat) ->
  Forall (fun g => forall a, (depth (g a) <= d)%nat) gs ->
  forall args, (depth (Compose_call f gs args) <= S (S d))%nat.
Proof.
  intros Hf Hgs args. unfold Compose_call. rewrite depth_frame.
  apply le_n_S. destruct (Nat.eqb (length gs) 0); [apply Hf|].
  apply depth_dbind_le; [|intros vs; apply Hf].
  rewrite depth_frame. apply le_n_S. now apply depth_inner_results.
Qed.

Lemma depth_PrimRec_loop (step : dcallable) (xs : list Z) (d : nat) :
  (forall a, (depth (step a) <= d)%nat) ->
  forall count k acc, (depth (PrimRec_loop step xs count k acc) <= d)%nat.
Proof.
  intros Hs. induction count as [|count IH]; intros k acc; simpl; [lia|].
  apply depth_dbind_le; [apply Hs|]. intros acc'. apply IH.
Qed.

Lemma PrimRec_loop_ext (step step' : callable) (xs : list Z) (count : nat) :
  (forall a, step a = step' a) ->
  forall k acc,
    Prf.PrimRec_loop step xs count k acc = Prf.PrimRec_loop step' xs count k acc.
Proof.
  intros E. induction count as [|count IH]; intros k acc; simpl; [reflexivity|].
  rewrite E. apply bind_ext. intros acc'. apply IH.
Qed.

Lemma PrimRec_call_ext (base base' step step' : callable) (args : list Z) :
  (forall a, base a = base' a) -> (forall a, step a = step' a) ->
  Prf.PrimRec_call base step args = Prf.PrimRec_call base' step' args.
Proof.
  intros Eb Es. destruct args as [|n xs]; [reflexivity|].
  unfold Prf.PrimRec_call. rewrite Eb. apply bind_ext. intros acc.
  now apply PrimRec_loop_ext.
Qed.

Lemma erase_add (args : list Z) : erase add args = Prf.add args.
Proof.
  unfold add. rewrite erase_PrimRec_call.
  apply PrimRec_call_ext; intros a.
  - apply erase_Proj_call.
  - rewrite erase_Compose_call. simpl map.
    unfold Prf.compose, Prf.Compose_call. cbn [length Nat.eqb Prf.inner_results].
    rewrite erase_Proj_call. apply bind_ext. intros vs. apply erase_Succ_call.
Qed.

Lemma outcome_add (args : list Z) : outcome (add args) = Prf.add args.
Proof. exact (erase_add args). Qed.

End StackDepthFacts.

(** C7: the stack depth of a [PrimRec] call does not grow with the recursion
    argument.  When [base] and [step] never need more than [d] frames, the
    call of the node needs at most [d + 1] frames, for every recursion
    argument [n] and every [xs]: the iterations run one after the other in
    the single frame of [__call__]. *)
Theorem PrimRec_call_depth_constant
        (base step : StackDepth.dcallable) (d : nat) :
  (forall xs, (StackDepth.depth (base xs) <= d)%nat) ->
  (forall args, (StackDepth.depth (step args) <= d)%nat) ->
  forall n xs,
    (StackDepth.depth (StackDepth.PrimRec_call base step (n :: xs)) <= S d)%nat.
Proof.
  intros Hb Hs n xs. unfold StackDepth.PrimRec_call.
  rewrite depth_frame. apply le_n_S.
  apply depth_dbind_le; [apply Hb|]. intros acc.
  now apply depth_PrimRec_loop.
Qed.

Lemma add_step_depth (args : list Z) :
  (StackDepth.depth
     (StackDepth.Compose_call StackDepth.Succ_call [StackDepth.Proj_call 1] args)
   <= 3)%nat.
Proof.
  apply depth_Compose_call.
  - intros a. rewrite depth_Succ_call. lia.
  - constructor; [|constructor]. intros a. rewrite depth_Proj_call. lia.
Qed.

Lemma add_base_depth (xs : list Z) :
  (StackDepth.depth (StackDepth.Proj_call 0 xs) <= 3)%nat.
Proof. rewrite depth_Proj_call. lia. Qed.

Lemma PrimRec_call_depth_constant_witness :
  (StackDepth.depth (StackDepth.add [1000000%Z; 7%Z]) <= 4)%nat.
Proof.
  unfold StackDepth.add.
  apply (PrimRec_call_depth_constant
           (StackDepth.Proj_call 0)
           (StackDepth.Compose_call StackDepth.Succ_call [StackDepth.Proj_call 1])
           3 add_base_depth add_step_depth 1000000 [7]).
Defined.

(** For comparison: run as nested calls, the recursion equations need at
    least one frame per unit of the recursion argument. *)
Lemma PrimRec_native_depth_grows (base step : StackDepth.dcallable)
      (n : nat) (xs : list Z) :
  (S n <= StackDepth.depth (StackDepth.PrimRec_native base step n xs))%nat.
Proof.
  induction n as [|n IH]; simpl; rewrite depth_frame.
  - lia.
  - apply le_n_S. etransitivity; [exact IH|]. apply depth_dbind_ge.
Qed.

(** ** The interactive shell *)

Section Strip.
Import Prf.

Lemma lstrip_blank (s : str) : blank s = true -> lstrip s = [].
Proof.
  induction s as [|c s IH]; simpl; [reflexivity|].
  intros H. apply andb_prop in H as [Hc Hs]. rewrite Hc. auto.
Qed.

Lemma rstrip_blank (s : str) : blank s = true -> rstrip s = [].
Proof.
  induction s as [|c s IH]; simpl; [reflexivity|].
  intros H. apply andb_prop in H as [Hc Hs]. rewrite (IH Hs), Hc. reflexivity.
Qed.

Lemma lstrip_app_blank (l s : str) :
  blank l = true -> lstrip (l ++ s) = lstrip s.
Proof.
  induction l as [|c l IH]; simpl; [reflexivity|].
  intros H. apply andb_prop in H as [Hc Hl]. rewrite Hc. auto.
Qed.

Lemma rstrip_app_blank (s r : str) :
  blank r = true -> rstrip (s ++ r) = rstrip s.
Proof.
  intros Hr. induction s as [|c s IH]; simpl.
  - now apply rstrip_blank.
  - rewrite IH. reflexivity.
Qed.

Lemma strip_app_blank_r (s r : str) :
  blank r = true -> strip (s ++ r) = strip s.
Proof.
  intros Hr. unfold strip. induction s as [|c s IH]; simpl.
  - rewrite (lstrip_blank r Hr). reflexivity.
  - destruct (is_space c); [exact IH|].
    change (c :: s ++ r) with ((c :: s) ++ r).
    now apply rstrip_app_blank.
Qed.

Lemma strip_surrounded (l s r : str) :
  blank l = true -> blank r = true -> strip (l ++ s ++ r) = strip s.
Proof.
  intros Hl Hr. unfold strip. rewrite lstrip_app_blank by exact Hl.
  now apply strip_app_blank_r.
Qed.







End Strip.




(** * Further properties of the library *)

(** ** Projections on argument tuples *)

Lemma proj_0_cons (x : Z) (l : list Z) : Prf.proj 0 (x :: l) = Ok x.
Proof. exact (Proj_call_in_range 0 (x :: l) ltac:(simpl; lia)). Qed.

Lemma proj_1_cons (x y : Z) (l : list Z) : Prf.proj 1 (x :: y :: l) = Ok y.
Proof. exact (Proj_call_in_range 1 (x :: y :: l) ltac:(simpl; lia)). Qed.

Lemma proj_2_cons (x y z : Z) (l : list Z) :
  Prf.proj 2 (x :: y :: z :: l) = Ok z.
Proof. exact (Proj_call_in_range 2 (x :: y :: z :: l) ltac:(simpl; lia)). Qed.

(** Open a [compose] node applied to arguments and run the projections among
    its inner functions. *)
Ltac compose_step :=
  unfold Prf.compose, Prf.Compose_call;
  cbn [length Nat.eqb Prf.inner_results];
  rewrite ?proj_0_cons, ?proj_1_cons, ?proj_2_cons;
  repeat ret_step.

(** ** Arithmetic built by primitive recursion *)

Section MoreArithmetic.
Import Prf Examples.

(** With further arguments after the second, [add] still adds the first
    two. *)
Lemma add_spec_surplus (a : nat) (b : Z) (rest : list Z) :
  add (Z.of_nat a :: b :: rest) = Ok (Z.of_nat a + b).
Proof.
  unfold add, prim_rec. induction a as [|a IH].
  - rewrite PrimRec_call_zero. apply proj_0_cons.
  - rewrite PrimRec_call_succ, IH. ret_step. compose_step.
    rewrite succ_spec. f_equal. lia.
Qed.

Lemma mult_step (k r b : Z) : compose add [proj 1; proj 2] [k; r; b] = add [r; b].
Proof. compose_step. reflexivity. Qed.

Lemma mult_spec (a b : nat) :
  mult [Z.of_nat a; Z.of_nat b] = Ok (Z.of_nat (a * b)).
Proof.
  unfold mult, prim_rec. induction a as [|a IH].
  - rewrite PrimRec_call_zero. reflexivity.
  - rewrite PrimRec_call_succ, IH. ret_step.
    rewrite mult_step, add_spec. f_equal. lia.
Qed.

Lemma factorial_step (k r : Z) :
  compose mult [compose succ [proj 0]; proj 1] [k; r] = mult [k + 1; r].
Proof. compose_step. rewrite succ_spec. repeat ret_step. reflexivity. Qed.

Lemma factorial_spec (n : nat) :
  factorial [Z.of_nat n] = Ok (Z.of_nat (fact n)).
Proof.
  unfold factorial, prim_rec. induction n as [|n IH].
  - rewrite PrimRec_call_zero. reflexivity.
  - rewrite PrimRec_call_succ, IH. ret_step. rewrite factorial_step.
    replace (Z.of_nat n + 1) with (Z.of_nat (S n)) by lia.
    rewrite mult_spec. reflexivity.
Qed.

Lemma const_spec (args : list Z) : _const args = Ok 1.
Proof. reflexivity. Qed.

Lemma sg_spec (n : nat) :
  sg [Z.of_nat n] = Ok (if Nat.eqb n 0 then 0 else 1).
Proof.
  unfold sg, prim_rec. destruct n as [|n].
  - rewrite PrimRec_call_zero. reflexivity.
  - rewrite PrimRec_call_succ.
    assert (E : exists r, PrimRec_call zero _const [Z.of_nat n] = Ok r).
    { induction n as [|n [r IH]].
      - exists 0. apply PrimRec_call_zero.
      - exists 1. rewrite PrimRec_call_succ, IH. reflexivity. }
    destruct E as [r ->]. reflexivity.
Qed.

Lemma sg_bar_spec (n : nat) :
  sg_bar [Z.of_nat n] = Ok (if Nat.eqb n 0 then 1 else 0).
Proof.
  unfold sg_bar. compose_step. rewrite const_spec. ret_step.
  rewrite sg_spec. repeat ret_step.
  destruct n as [|n]; simpl Nat.eqb; cbv iota.
  - exact (monus_spec 1 0).
  - exact (monus_spec 1 1).
Qed.

Lemma abs_diff_spec (a b : nat) :
  _abs_diff [Z.of_nat a; Z.of_nat b] = Ok (Z.of_nat ((a - b) + (b - a))).
Proof.
  unfold _abs_diff. compose_step. rewrite monus_spec. ret_step.
  compose_step. rewrite monus_spec. repeat ret_step.
  rewrite add_spec. f_equal. lia.
Qed.

Lemma eq_spec (a b : nat) :
  eq [Z.of_nat a; Z.of_nat b] = Ok (if Nat.eqb a b then 1 else 0).
Proof.
  unfold eq, is_zero. compose_step. rewrite abs_diff_spec. repeat ret_step.
  rewrite sg_bar_spec.
  destruct (Nat.eqb_spec a b) as [E|E];
    destruct (Nat.eqb_spec ((a - b) + (b - a)) 0); try reflexivity; lia.
Qed.

Lemma leq_spec (a b : nat) :
  leq [Z.of_nat a; Z.of_nat b] = Ok (if Nat.leb a b then 1 else 0).
Proof.
  unfold leq, is_zero. compose_step. rewrite monus_spec. repeat ret_step.
  rewrite sg_bar_spec.
  destruct (Nat.leb_spec a b); destruct (Nat.eqb_spec (a - b) 0);
    try reflexivity; lia.
Qed.

Lemma lt_spec (a b : nat) :
  lt [Z.of_nat a; Z.of_nat b] = Ok (if Nat.ltb a b then 1 else 0).
Proof.
  unfold lt. compose_step. compose_step. rewrite succ_spec. repeat ret_step.
  replace (Z.of_nat a + 1) with (Z.of_nat (S a)) by lia.
  rewrite leq_spec. reflexivity.
Qed.

Lemma exp_step (k r b : Z) : compose mult [proj 2; proj 1] [k; r; b] = mult [b; r].
Proof. compose_step. reflexivity. Qed.

Lemma exp_spec (n b : nat) :
  exp [Z.of_nat n; Z.of_nat b] = Ok (Z.of_nat (b ^ n)).
Proof.
  unfold exp, prim_rec. induction n as [|n IH].
  - rewrite PrimRec_call_zero. reflexivity.
  - rewrite PrimRec_call_succ, IH. ret_step.
    rewrite exp_step, mult_spec. reflexivity.
Qed.

Lemma double_spec (n : nat) : double [Z.of_nat n] = Ok (Z.of_nat (2 * n)).
Proof.
  unfold double. compose_step. rewrite add_spec. f_equal. lia.
Qed.

Lemma square_spec (n : nat) : square [Z.of_nat n] = Ok (Z.of_nat (n * n)).
Proof.
  unfold square. compose_step. apply mult_spec.
Qed.

End MoreArithmetic.

(** ** Division and remainder by bounded search *)

Section Division.
Import Prf Examples.

Lemma Div_exceeds_spec (a b q : nat) :
  Div_exceeds (Z.of_nat a) (Z.of_nat b) [Z.of_nat q] =
  Ok (if Nat.ltb a (b * S q) then 1 else 0).
Proof.
  unfold Div_exceeds. rewrite succ_spec. ret_step.
  replace (Z.of_nat q + 1) with (Z.of_nat (S q)) by lia.
  rewrite mult_spec. ret_step. f_equal.
  destruct (Nat.ltb_spec a (b * S q));
    destruct (Z.ltb_spec (Z.of_nat a) (Z.of_nat (b * S q)));
    try reflexivity; lia.
Qed.

Lemma div_spec (a b : nat) :
  b <> O -> div [Z.of_nat a; Z.of_nat b] = Ok (Z.of_nat (a / b)).
Proof.
  intros Hb. unfold div, Div_call.
  destruct (Z.eqb_spec (Z.of_nat b) 0) as [E|_]; [lia|].
  rewrite succ_spec. ret_step.
  pose proof (Nat.Div0.mul_div_le a b) as Hle.
  pose proof (Nat.mul_succ_div_gt a b Hb) as Hgt.
  assert (Hq : (a / b <= a)%nat).
  { apply Nat.Div0.div_le_upper_bound. nia. }
  apply bmin_found.
  - lia.
  - intros j Hj. exists 0. split; [|discriminate].
    replace j with (Z.of_nat (Z.to_nat j)) by lia.
    rewrite Div_exceeds_spec.
    destruct (Nat.ltb_spec a (b * S (Z.to_nat j))); [|reflexivity].
    exfalso. assert (S (Z.to_nat j) <= a / b)%nat by lia. nia.
  - rewrite Div_exceeds_spec.
    destruct (Nat.ltb_spec a (b * S (a / b))); [reflexivity|lia].
Qed.

Lemma rem_spec (a b : nat) :
  b <> O -> rem [Z.of_nat a; Z.of_nat b] = Ok (Z.of_nat (a mod b)).
Proof.
  intros Hb. unfold rem, Rem_call.
  destruct (Z.eqb_spec (Z.of_nat b) 0) as [E|_]; [lia|].
  rewrite div_spec by exact Hb. ret_step.
  rewrite mult_spec. ret_step. rewrite monus_spec.
  rewrite Nat.Div0.mod_eq. reflexivity.
Qed.

End Division.

(** ** Decoding any natural number *)

Section CantorDecoding.
Import Prf Examples.

(** Every natural number lies in exactly one row of the Cantor
    enumeration. *)
Lemma triangular_decompose (p : nat) :
  exists w b, (b <= w)%nat /\ p = (triangular w + b)%nat.
Proof.
  induction p as [|p (w & b & Hb & Hp)].
  - exists O, O. split; reflexivity.
  - destruct (Nat.eq_dec b w) as [E|E].
    + exists (S w), O. split; [lia|]. simpl. lia.
    + exists w, (S b). split; lia.
Qed.

Lemma pair_code_of (p : nat) :
  exists a b, p = (triangular (a + b) + b)%nat.
Proof.
  destruct (triangular_decompose p) as (w & b & Hb & Hp).
  exists (w - b)%nat, b. replace (w - b + b)%nat with w by lia. exact Hp.
Qed.

End CantorDecoding.

(** ** Fibonacci on encoded pairs *)

Section Fibonacci.
Import Prf Examples.

Lemma FibStep_spec (k : Z) (a b : nat) :
  _fib_step [k; Z.of_nat (triangular (a + b) + b)] =
  Ok (Z.of_nat (triangular (b + (a + b)) + (a + b))).
Proof.
  unfold _fib_step, FibStep_call.
  rewrite fst_pair. ret_step. rewrite snd_pair. ret_step.
  rewrite add_spec. ret_step.
  rewrite <- Nat2Z.inj_add. apply pair_spec.
Qed.

Lemma fib_pair_spec (n : nat) :
  fib_pair [Z.of_nat n] =
  Ok (Z.of_nat (triangular (fibonacci n + fibonacci (S n)) + fibonacci (S n))).
Proof.
  unfold fib_pair, prim_rec. induction n as [|n IH].
  - rewrite PrimRec_call_zero. exact (pair_spec 0 1).
  - rewrite PrimRec_call_succ, IH. ret_step.
    change (_fib_step [Z.of_nat n;
                       Z.of_nat (triangular (fibonacci n + fibonacci (S n))
                                 + fibonacci (S n))] =
            Ok (Z.of_nat (triangular (fibonacci (S n) + fibonacci (S (S n)))
                          + fibonacci (S (S n))))).
    rewrite FibStep_spec.
    replace (fibonacci (S (S n))) with (fibonacci n + fibonacci (S n))%nat
      by reflexivity.
    reflexivity.
Qed.

Lemma fib_spec (n : nat) : fib [Z.of_nat n] = Ok (Z.of_nat (fibonacci n)).
Proof.
  unfold fib, Fib_call. rewrite fib_pair_spec. ret_step. apply fst_pair.
Qed.

End Fibonacci.

(** ** How failures travel *)

Lemma PrimRec_call_raise_persists (base step : callable) (xs : list Z)
      (e : exn) (k d : nat) :
  Prf.PrimRec_call base step (Z.of_nat k :: xs) = Raise e ->
  Prf.PrimRec_call base step (Z.of_nat (d + k) :: xs) = Raise e.
Proof.
  intros Hk. induction d as [|d IH]; [exact Hk|].
  change (S d + k)%nat with (S (d + k)).
  rewrite PrimRec_call_succ, IH. reflexivity.
Qed.

Lemma BoundedMin_loop_raises (p : callable) (n : Z) (e : exn) (count : nat) :
  forall k m,
    k <= m < k + Z.of_nat count ->
    (forall j, k <= j < m -> exists v, p [j] = Ok v /\ v <> 1) ->
    p [m] = Raise e ->
    Prf.BoundedMin_loop p n count k = Raise e.
Proof.
  induction count as [|count IH]; intros k m Hm Hlt Hp; [lia|].
  simpl. destruct (Z.eq_dec k m) as [->|Hne].
  - rewrite Hp. reflexivity.
  - destruct (Hlt k) as (v & Hv & Hv1); [lia|].
    rewrite Hv. simpl.
    destruct (Z.eqb_spec v 1) as [?|_]; [contradiction|].
    apply IH with (m := m); [lia| |assumption].
    intros j Hj. apply Hlt. lia.
Qed.

(** What a returned result says about the scan that produced it. *)
Lemma BoundedMin_loop_returned (p : callable) (n r : Z) (count : nat) :
  forall k,
    Prf.BoundedMin_loop p n count k = Ok r ->
    (k <= r < k + Z.of_nat count /\ p [r] = Ok 1 /\
     forall j, k <= j < r -> exists v, p [j] = Ok v /\ v <> 1) \/
    (r = n /\
     forall j, k <= j < k + Z.of_nat count -> exists v, p [j] = Ok v /\ v <> 1).
Proof.
  induction count as [|count IH]; intros k H.
  - simpl in H. injection H as <-. right. split; [reflexivity|]. intros; lia.
  - simpl in H. destruct (p [k]) as [v|e] eqn:Hv; [|discriminate].
    simpl in H. destruct (Z.eqb_spec v 1) as [->|Hv1].
    + injection H as <-. left.
      split; [lia|]. split; [exact Hv|]. intros; lia.
    + assert (Hk : forall j, k <= j < k + 1 -> exists v, p [j] = Ok v /\ v <> 1).
      { intros j Hj. replace j with k by lia. eauto. }
      destruct (IH _ H) as [(H1 & H2 & H3)|(H1 & H2)].
      * left. split; [lia|]. split; [exact H2|].
        intros j Hj. destruct (Z_lt_ge_dec j (k + 1)); [apply Hk|apply H3]; lia.
      * right. split; [exact H1|].
        intros j Hj. destruct (Z_lt_ge_dec j (k + 1)); [apply Hk|apply H2]; lia.
Qed.

(** ** Negative projection indices *)

Lemma tuple_getitem_from_end (t : list Z) (i : nat) :
  (0 < i <= length t)%nat ->
  Prf.tuple_getitem t (- Z.of_nat i) = Ok (nth (length t - i) t 0).
Proof.
  intros Hi. unfold Prf.tuple_getitem. cbv zeta.
  assert (Hneg : (- Z.of_nat i <? 0) = true) by (apply Z.ltb_lt; lia).
  rewrite Hneg.
  assert (H1 : (- Z.of_nat i + Z.of_nat (length t) <? 0) = false)
    by (apply Z.ltb_ge; lia).
  assert (H2 : (Z.of_nat (length t) <=? - Z.of_nat i + Z.of_nat (length t)) = false)
    by (apply Z.leb_gt; lia).
  rewrite H1, H2. simpl.
  replace (Z.to_nat (- Z.of_nat i + Z.of_nat (length t)))
    with (length t - i)%nat by lia.
  destruct (nth_error t (length t - i)) as [v|] eqn:E.
  - f_equal. symmetry. apply nth_error_nth with (1 := E).
  - apply nth_error_None in E. lia.
Qed.

Lemma tuple_getitem_before_start (t : list Z) (i : nat) :
  (length t < i)%nat -> Prf.tuple_getitem t (- Z.of_nat i) = Raise IndexError.
Proof.
  intros Hi. unfold Prf.tuple_getitem. cbv zeta.
  assert (Hneg : (- Z.of_nat i <? 0) = true) by (apply Z.ltb_lt; lia).
  rewrite Hneg.
  assert (H1 : (- Z.of_nat i + Z.of_nat (length t) <? 0) = true)
    by (apply Z.ltb_lt; lia).
  rewrite H1. reflexivity.
Qed.

(** ** Function objects as trees *)

Section NodeInduction.
Import Nodes.

Variable P : node -> Prop.
Hypothesis HZero : P Zero.
Hypothesis HSucc : P Succ.
Hypothesis HProj : forall index, P (Proj index).
Hypothesis HCompose : forall f gs, P f -> Forall P gs -> P (Compose f gs).
Hypothesis HPrimRec : forall base step, P base -> P step -> P (PrimRec base step).

(** Induction over trees, with the hypothesis for every inner function of a
    composition. *)
Fixpoint node_induction (v : node) : P v :=
  match v with
  | Zero => HZero
  | Succ => HSucc
  | Proj index => HProj index
  | Compose f gs =>
      HCompose f gs (node_induction f)
        ((fix all (l : list node) : Forall P l :=
            match l with
            | [] => Forall_nil P
            | g :: l' => Forall_cons g (node_induction g) (all l')
            end) gs)
  | PrimRec base step =>
      HPrimRec base step (node_induction base) (node_induction step)
  end.

End NodeInduction.

Section NodeFacts.
Import StackDepth.

Lemma inner_results_ext (gs gs' : list callable) (args : list Z) :
  Forall2 (fun g g' : callable => forall a, g a = g' a) gs gs' ->
  Prf.inner_results gs args = Prf.inner_results gs' args.
Proof.
  induction 1 as [|g g' gs gs' Hg _ IH]; simpl; [reflexivity|].
  rewrite Hg, IH. reflexivity.
Qed.

Lemma Compose_call_ext (f f' : callable) (gs gs' : list callable) (args : list Z) :
  (forall a, f a = f' a) ->
  Forall2 (fun g g' : callable => forall a, g a = g' a) gs gs' ->
  Prf.Compose_call f gs args = Prf.Compose_call f' gs' args.
Proof.
  intros Hf Hgs. unfold Prf.Compose_call.
  assert (Hlen : @length callable gs = @length callable gs')
    by exact (Forall2_length Hgs).
  rewrite Hlen, (inner_results_ext _ _ _ Hgs).
  destruct (Nat.eqb (length gs') 0); [apply Hf|].
  apply bind_ext. intros vs. apply Hf.
Qed.

Lemma depth_PrimRec_call (base step : dcallable) (d : nat) :
  (forall xs, (depth (base xs) <= d)%nat) ->
  (forall a, (depth (step a) <= d)%nat) ->
  forall args, (depth (PrimRec_call base step args) <= S d)%nat.
Proof.
  intros Hb Hs args. unfold PrimRec_call. rewrite depth_frame. apply le_n_S.
  destruct args as [|n xs]; [simpl; lia|].
  apply depth_dbind_le; [apply Hb|]. intros acc. now apply depth_PrimRec_loop.
Qed.

Lemma fold_max_ge (l : list nat) (x : nat) :
  In x l -> (x <= fold_right Nat.max O l)%nat.
Proof.
  induction l as [|y l IH]; simpl; [contradiction|].
  intros [->|H]; [lia|]. specialize (IH H). lia.
Qed.

Lemma node_outcome (v : Nodes.node) :
  forall args, outcome (Nodes.call v args) = Nodes.apply v args.
Proof.
  induction v as [| |index|f gs IHf IHgs|base step IHb IHs]
    using node_induction; intros args; simpl.
  - apply erase_Zero_call.
  - apply erase_Succ_call.
  - apply erase_Proj_call.
  - change (erase (Compose_call (Nodes.call f) (map Nodes.call gs)) args =
            Prf.Compose_call (Nodes.apply f) (map Nodes.apply gs) args).
    rewrite erase_Compose_call. apply Compose_call_ext; [exact IHf|].
    rewrite map_map. induction IHgs as [|g gs Hg _ IH]; simpl; constructor; auto.
  - change (erase (PrimRec_call (Nodes.call base) (Nodes.call step)) args =
            Prf.PrimRec_call (Nodes.apply base) (Nodes.apply step) args).
    rewrite erase_PrimRec_call. now apply PrimRec_call_ext.
Qed.

Lemma node_depth (v : Nodes.node) :
  forall args, (depth (Nodes.call v args) <= 2 * Nodes.height v)%nat.
Proof.
  induction v as [| |index|f gs IHf IHgs|base step IHb IHs]
    using node_induction; intros args; simpl Nodes.call; simpl Nodes.height.
  - rewrite depth_Zero_call. lia.
  - rewrite depth_Succ_call. lia.
  - rewrite depth_Proj_call. lia.
  - set (H := Nat.max (Nodes.height f)
                      (fold_right Nat.max O (map Nodes.height gs))).
    replace (2 * S H)%nat with (S (S (2 * H))) by lia.
    apply depth_Compose_call.
    + intros a. specialize (IHf a). lia.
    + apply Forall_forall. intros c Hc.
      apply in_map_iff in Hc as (g & <- & Hg).
      rewrite Forall_forall in IHgs. intros a. specialize (IHgs g Hg a).
      pose proof (fold_max_ge (map Nodes.height gs) (Nodes.height g)
                              (in_map Nodes.height gs g Hg)).
      lia.
  - set (H := Nat.max (Nodes.height base) (Nodes.height step)).
    apply Nat.le_trans with (m := S (2 * H)); [|lia].
    apply depth_PrimRec_call.
    + intros a. specialize (IHb a). lia.
    + intros a. specialize (IHs a). lia.
Qed.

End NodeFacts.

(** * Results on the derived functions *)

(** X1: [add(a, b, ...)] returns [a + b] for a natural [a] and any integer
    [b]; arguments after the second are accepted and ignored. *)
Theorem add_sum (a : nat) (b : Z) (rest : list Z) :
  Prf.add (Z.of_nat a :: b :: rest) = Ok (Z.of_nat a + b).
Proof. apply add_spec_surplus. Qed.

(** X2: with a single argument, [add] raises [IndexError] (its base
    projection finds no argument); [mult] returns 0 when the argument is 0,
    as the step is never run, and raises [IndexError] from the step's
    [proj(2)] when it is positive.  With no argument both raise
    [TypeError]. *)
Theorem too_few_arguments :
  (forall n, Prf.add [n] = Raise IndexError) /\
  Prf.mult [0] = Ok 0 /\
  (forall n : nat, Prf.mult [Z.of_nat (S n)] = Raise IndexError) /\
  Prf.add [] = Raise TypeError /\ Prf.mult [] = Raise TypeError.
Proof.
  split; [reflexivity|]. split; [reflexivity|]. split; [|split; reflexivity].
  intros n. replace (S n) with (n + 1)%nat by lia.
  apply PrimRec_call_raise_persists. reflexivity.
Qed.

(** X3: [pred(n) = max(0, n - 1)] for every integer [n], and so is
    [pred_alt(n)]. *)
Theorem pred_truncated (z : Z) :
  Prf.pred [z] = Ok (Z.max 0 (z - 1)) /\
  Examples.pred_alt [z] = Ok (Z.max 0 (z - 1)).
Proof.
  enough (H : Prf.pred [z] = Ok (Z.max 0 (z - 1))) by (split; exact H).
  destruct (Z_le_gt_dec z 0) as [Hz|Hz].
  - unfold Prf.pred, Prf.prim_rec. rewrite PrimRec_call_negative by exact Hz.
    simpl. f_equal. lia.
  - rewrite <- (Z2Nat.id z) by lia. rewrite pred_spec. f_equal. lia.
Qed.

(** X4: [monus(a, b) = max(0, a - b)] for naturals [a], [b]. *)
Theorem monus_truncated (a b : nat) :
  Prf.monus [Z.of_nat a; Z.of_nat b] = Ok (Z.max 0 (Z.of_nat a - Z.of_nat b)).
Proof. rewrite monus_spec. f_equal. lia. Qed.

(** X5: [mult(a, b) = a * b] for naturals [a], [b]. *)
Theorem mult_product (a b : nat) :
  Prf.mult [Z.of_nat a; Z.of_nat b] = Ok (Z.of_nat a * Z.of_nat b).
Proof. rewrite mult_spec. f_equal. lia. Qed.

(** X6: [factorial(n) = n!] for every natural [n]. *)
Theorem factorial_fact (n : nat) :
  Prf.factorial [Z.of_nat n] = Ok (Z.of_nat (fact n)).
Proof. apply factorial_spec. Qed.

Lemma triangular_double (n : nat) : (2 * triangular n = n * (n + 1))%nat.
Proof. induction n as [|n IH]; simpl triangular; lia. Qed.

(** X7: [tri(n)] returns the number [t] with [2 t = n (n + 1)]. *)
Theorem tri_closed_form (n : nat) :
  exists t, Examples.tri [Z.of_nat n] = Ok t /\
            2 * t = Z.of_nat n * (Z.of_nat n + 1).
Proof.
  exists (Z.of_nat (triangular n)). split; [apply tri_spec|].
  pose proof (triangular_double n). lia.
Qed.

(** X8: [sg] is 0 at 0 and 1 elsewhere, and [sg_bar] (also named
    [is_zero]) is its complement. *)
Theorem sg_and_complement (n : nat) :
  Examples.sg [Z.of_nat n] = Ok (if Nat.eqb n 0 then 0 else 1) /\
  Examples.sg_bar [Z.of_nat n] = Ok (if Nat.eqb n 0 then 1 else 0) /\
  Examples.is_zero [Z.of_nat n] = Ok (if Nat.eqb n 0 then 1 else 0).
Proof.
  split; [apply sg_spec|]. split; apply sg_bar_spec.
Qed.

(** X9: [eq(a, b)] returns 1 when [a = b] and 0 otherwise. *)
Theorem eq_decides (a b : nat) :
  Examples.eq [Z.of_nat a; Z.of_nat b] = Ok (if Nat.eqb a b then 1 else 0).
Proof. apply eq_spec. Qed.

(** X10: [leq(a, b)] returns 1 exactly when [a <= b], and [lt(a, b)]
    exactly when [a < b]; they return 0 otherwise. *)
Theorem leq_lt_decide (a b : nat) :
  Examples.leq [Z.of_nat a; Z.of_nat b] = Ok (if Nat.leb a b then 1 else 0) /\
  Examples.lt [Z.of_nat a; Z.of_nat b] = Ok (if Nat.ltb a b then 1 else 0).
Proof. split; [apply leq_spec|apply lt_spec]. Qed.

(** X11: [exp(n, b) = b ^ n]: the exponent is the first argument, the base
    the second. *)
Theorem exp_power (n b : nat) :
  Examples.exp [Z.of_nat n; Z.of_nat b] = Ok (Z.of_nat b ^ Z.of_nat n).
Proof. rewrite exp_spec. f_equal. apply Nat2Z.inj_pow. Qed.

(** X12: [double(n) = 2 n] and [square(n) = n * n]. *)
Theorem double_and_square (n : nat) :
  Examples.double [Z.of_nat n] = Ok (2 * Z.of_nat n) /\
  Examples.square [Z.of_nat n] = Ok (Z.of_nat n * Z.of_nat n).
Proof.
  split.
  - rewrite double_spec. f_equal. lia.
  - rewrite square_spec. f_equal. lia.
Qed.

(** X13: for all integers [d], [n], [divides(d, n)] returns 0 or 1, and it
    returns 1 exactly when [d] divides [n] (so 0 divides only 0). *)
Theorem divides_decides (d n : Z) :
  exists v, Examples.divides [d; n] = Ok v /\
            (v = 0 \/ v = 1) /\ (v = 1 <-> (d | n)).
Proof.
  exists (Examples._divides d n). split; [reflexivity|].
  unfold Examples._divides.
  destruct (Z.eqb_spec d 0) as [->|Hd].
  - destruct (Z.eqb_spec n 0) as [->|Hn].
    + split; [auto|]. split; [intros _; apply Z.divide_0_r|reflexivity].
    + split; [auto|]. split; [discriminate|].
      intros H. apply Z.divide_0_l in H. contradiction.
  - rewrite <- (Z.mod_divide n d Hd).
    destruct (Z.eqb_spec (n mod d) 0) as [E|E].
    + split; [auto|]. split; auto.
    + split; [auto|]. split; [discriminate|]. intros H. contradiction.
Qed.

Lemma divides_decides_witness :
  exists v, Examples.divides [3; 9] = Ok v /\
            (v = 0 \/ v = 1) /\ (v = 1 <-> (3 | 9)).
Proof. exact (divides_decides 3 9). Defined.

(** X14: [div(a, 0)] returns 0 for every [a]; for naturals [a] and [b > 0],
    [div(a, b)] is the floored quotient. *)
Theorem div_floor :
  (forall a, Examples.div [a; 0] = Ok 0) /\
  (forall a b : nat, b <> O ->
     Examples.div [Z.of_nat a; Z.of_nat b] = Ok (Z.of_nat a / Z.of_nat b)).
Proof.
  split; [reflexivity|]. intros a b Hb.
  rewrite div_spec by exact Hb. f_equal. apply Nat2Z.inj_div.
Qed.

Lemma div_floor_witness :
  Examples.div [7; 0] = Ok 0 /\
  Examples.div [Z.of_nat 10; Z.of_nat 3] = Ok (Z.of_nat 10 / Z.of_nat 3).
Proof.
  split.
  - apply (proj1 div_floor).
  - apply (proj2 div_floor 10%nat 3%nat). discriminate.
Defined.

(** X15: [rem(a, 0)] returns [a]; for naturals [a] and [b > 0], [rem(a, b)]
    is [a mod b]. *)
Theorem rem_modulo :
  (forall a, Examples.rem [a; 0] = Ok a) /\
  (forall a b : nat, b <> O ->
     Examples.rem [Z.of_nat a; Z.of_nat b] = Ok (Z.of_nat a mod Z.of_nat b)).
Proof.
  split; [reflexivity|]. intros a b Hb.
  rewrite rem_spec by exact Hb. f_equal. apply Nat2Z.inj_mod.
Qed.

Lemma rem_modulo_witness :
  Examples.rem [7; 0] = Ok 7 /\
  Examples.rem [Z.of_nat 10; Z.of_nat 3] = Ok (Z.of_nat 10 mod Z.of_nat 3).
Proof.
  split.
  - apply (proj1 rem_modulo).
  - apply (proj2 rem_modulo 10%nat 3%nat). discriminate.
Defined.

(** X16: for naturals [a] and [b > 0], quotient and remainder fit together:
    [a = b * div(a, b) + rem(a, b)] with [0 <= rem(a, b) < b]. *)
Theorem div_rem_identity (a b : nat) :
  b <> O ->
  exists q r,
    Examples.div [Z.of_nat a; Z.of_nat b] = Ok q /\
    Examples.rem [Z.of_nat a; Z.of_nat b] = Ok r /\
    Z.of_nat a = Z.of_nat b * q + r /\ 0 <= r < Z.of_nat b.
Proof.
  intros Hb. exists (Z.of_nat (a / b)), (Z.of_nat (a mod b)).
  split; [now apply div_spec|]. split; [now apply rem_spec|].
  pose proof (Nat.div_mod_eq a b). pose proof (Nat.mod_upper_bound a b Hb).
  split; [nia|lia].
Qed.

Lemma div_rem_identity_witness :
  exists q r,
    Examples.div [Z.of_nat 17; Z.of_nat 5] = Ok q /\
    Examples.rem [Z.of_nat 17; Z.of_nat 5] = Ok r /\
    Z.of_nat 17 = Z.of_nat 5 * q + r /\ 0 <= r < Z.of_nat 5.
Proof. apply (div_rem_identity 17 5). discriminate. Defined.

(** X17: on all naturals, not only below 20, [fst] and [snd] recover the
    two components of [pair(a, b)], and [pair] sends different pairs to
    different codes. *)
Theorem pair_decodes_everywhere (a b : nat) :
  (exists p, Examples.pair [Z.of_nat a; Z.of_nat b] = Ok p /\
             Examples.fst [p] = Ok (Z.of_nat a) /\
             Examples.snd [p] = Ok (Z.of_nat b)) /\
  (forall a' b' : nat,
     Examples.pair [Z.of_nat a'; Z.of_nat b'] =
     Examples.pair [Z.of_nat a; Z.of_nat b] ->
     a' = a /\ b' = b).
Proof.
  split; [apply pair_roundtrip|].
  intros a' b' E. now apply pair_injective.
Qed.

Lemma pair_decodes_everywhere_witness :
  (exists p, Examples.pair [Z.of_nat 30; Z.of_nat 45] = Ok p /\
             Examples.fst [p] = Ok (Z.of_nat 30) /\
             Examples.snd [p] = Ok (Z.of_nat 45)) /\
  (forall a' b' : nat,
     Examples.pair [Z.of_nat a'; Z.of_nat b'] =
     Examples.pair [Z.of_nat 30; Z.of_nat 45] ->
     a' = 30%nat /\ b' = 45%nat).
Proof. exact (pair_decodes_everywhere 30 45). Defined.

(** X18: every natural number [p] is the code of a pair: [fst(p)] and
    [snd(p)] return naturals [a], [b] with [pair(a, b) = p]. *)
Theorem pair_encodes_decoded (p : nat) :
  exists a b : nat,
    Examples.fst [Z.of_nat p] = Ok (Z.of_nat a) /\
    Examples.snd [Z.of_nat p] = Ok (Z.of_nat b) /\
    Examples.pair [Z.of_nat a; Z.of_nat b] = Ok (Z.of_nat p).
Proof.
  destruct (pair_code_of p) as (a & b & ->). exists a, b.
  split; [apply fst_pair|]. split; [apply snd_pair|apply pair_spec].
Qed.

(** X19: for every natural [p], [_cantor_w(p)] returns the row [w] of the
    Cantor enumeration that holds [p]: [tri(w) <= p < tri(w + 1)]. *)
Theorem cantor_w_row (p : nat) :
  exists w : nat,
    Examples._cantor_w [Z.of_nat p] = Ok (Z.of_nat w) /\
    (triangular w <= p < triangular (S w))%nat.
Proof.
  destruct (triangular_decompose p) as (w & b & Hb & ->). exists w.
  split.
  - replace w with ((w - b) + b)%nat at 1 2 by lia. apply cantor_w_spec.
  - simpl. lia.
Qed.

(** X20: [fib(n)] is the [n]-th Fibonacci number, for every natural [n]. *)
Theorem fib_fibonacci (n : nat) :
  Examples.fib [Z.of_nat n] = Ok (Z.of_nat (fibonacci n)).
Proof. apply fib_spec. Qed.

(** ** Results on the combinators *)

(** X21: in a composition, when the inner functions before some [g] return
    and [g] raises, the composed call raises the same exception: the later
    inner functions and the outer function are not run. *)
Theorem Compose_call_first_failure
        (f : callable) (gs1 gs2 : list callable) (g : callable)
        (args vs : list Z) (e : exn) :
  Forall2 (fun g v => g args = Ok v) gs1 vs ->
  g args = Raise e ->
  Prf.Compose_call f (gs1 ++ g :: gs2) args = Raise e.
Proof. apply Compose_call_inner_raises. Qed.

Lemma Compose_call_first_failure_witness :
  Prf.Compose_call Prf.add ([Prf.proj 0] ++ Prf.proj 5 :: [Prf.zero]) [7; 8]
  = Raise IndexError.
Proof.
  apply (Compose_call_first_failure Prf.add [Prf.proj 0] [Prf.zero]
           (Prf.proj 5) [7; 8] [7] IndexError).
  - repeat constructor.
  - reflexivity.
Defined.

Lemma Compose_call_values (f : callable) (gs : list callable) (args vs : list Z) :
  Forall2 (fun g v => g args = Ok v) gs vs ->
  Prf.Compose_call f gs args = f vs.
Proof.
  intros H. unfold Prf.Compose_call. destruct gs as [|g gs].
  - inversion H. reflexivity.
  - change (Nat.eqb (length (g :: gs)) 0) with false. cbv iota.
    rewrite (inner_results_Forall2 _ _ _ H). reflexivity.
Qed.

(** X22: a composition whose outer function is [zero] with at least one
    inner function, or [succ] with a number of inner functions other than
    one, raises [TypeError] once the inner functions have returned. *)
Theorem Compose_call_outer_arity (gs : list callable) (args vs : list Z) :
  Forall2 (fun g v => g args = Ok v) gs vs ->
  (gs <> [] -> Prf.Compose_call Prf.zero gs args = Raise TypeError) /\
  (length gs <> 1%nat -> Prf.Compose_call Prf.succ gs args = Raise TypeError).
Proof.
  intros H. pose proof (Forall2_length H) as Hlen. split; intros Hgs.
  - rewrite (Compose_call_values _ _ _ _ H).
    destruct vs as [|v vs]; [|reflexivity].
    destruct gs; [contradiction|discriminate].
  - rewrite (Compose_call_values _ _ _ _ H).
    destruct vs as [|v [|v' vs]]; try reflexivity.
    exfalso. apply Hgs. exact Hlen.
Qed.

Lemma Compose_call_outer_arity_witness :
  Prf.Compose_call Prf.zero [Prf.proj 0; Prf.proj 1] [3; 4] = Raise TypeError /\
  Prf.Compose_call Prf.succ [Prf.proj 0; Prf.proj 1] [3; 4] = Raise TypeError.
Proof.
  assert (H : Forall2 (fun (g : callable) v => g [3; 4] = Ok v)
                      [Prf.proj 0; Prf.proj 1] [3; 4])
    by (repeat constructor).
  split.
  - apply (proj1 (Compose_call_outer_arity _ _ _ H)). discriminate.
  - apply (proj2 (Compose_call_outer_arity _ _ _ H)). discriminate.
Defined.

(** X23: a primitive recursion that raises at recursion argument [k] raises
    the same exception at every larger recursion argument. *)
Theorem PrimRec_call_failure_persists
        (base step : callable) (xs : list Z) (e : exn) (k n : nat) :
  (k <= n)%nat ->
  Prf.PrimRec_call base step (Z.of_nat k :: xs) = Raise e ->
  Prf.PrimRec_call base step (Z.of_nat n :: xs) = Raise e.
Proof.
  intros Hkn Hk. replace n with ((n - k) + k)%nat by lia.
  now apply PrimRec_call_raise_persists.
Qed.

Lemma PrimRec_call_failure_persists_witness :
  Prf.PrimRec_call (Prf.compose Prf.zero []) (Prf.proj 3)
                   [Z.of_nat 4; 9] = Raise IndexError.
Proof.
  apply (PrimRec_call_failure_persists _ _ [9] IndexError 1 4).
  - lia.
  - reflexivity.
Defined.

(** X24: the bounded search is decided by the first index where the
    predicate returns 1 or raises; what the predicate does at later indices
    plays no part.  If below [m] the predicate returns values other than 1,
    then [bmin] returns [m] when [p(m) = 1] and raises [e] when [p(m)]
    raises [e]. *)
Theorem bmin_first_event (p : callable) (n m : Z) :
  0 <= m < n ->
  (forall j, 0 <= j < m -> exists v, p [j] = Ok v /\ v <> 1) ->
  (p [m] = Ok 1 -> Prf.bmin p n = Ok m) /\
  (forall e, p [m] = Raise e -> Prf.bmin p n = Raise e).
Proof.
  intros Hm Hlt. split.
  - intros Hp. now apply bmin_found.
  - intros e Hp.
    apply BoundedMin_loop_raises with (m := m); [lia|exact Hlt|exact Hp].
Qed.

Lemma bmin_first_event_witness :
  (is_five [5] = Ok 1 -> Prf.bmin is_five 10 = Ok 5) /\
  (forall e, is_five [5] = Raise e -> Prf.bmin is_five 10 = Raise e).
Proof.
  apply (bmin_first_event is_five 10 5).
  - lia.
  - intros j Hj. exists 0. split; [|discriminate].
    simpl. destruct (Z.eqb_spec j 5); [lia|reflexivity].
Defined.

(** X25: whatever the predicate, a result [r] returned by [bmin(p, n)] is
    either an index of [[0, n)] where [p] returned 1, with [p] returning
    values other than 1 at all smaller indices, or the bound [n] itself,
    with [p] returning values other than 1 on all of [[0, n)]. *)
Theorem bmin_returned (p : callable) (n r : Z) :
  Prf.bmin p n = Ok r ->
  (0 <= r < n /\ p [r] = Ok 1 /\
   forall j, 0 <= j < r -> exists v, p [j] = Ok v /\ v <> 1) \/
  (r = n /\ forall j, 0 <= j < n -> exists v, p [j] = Ok v /\ v <> 1).
Proof.
  intros H. apply BoundedMin_loop_returned in H.
  destruct H as [(H1 & H2 & H3)|(H1 & H2)].
  - left. split; [lia|]. split; [exact H2|]. intros j Hj. apply H3. lia.
  - right. split; [exact H1|]. intros j Hj. apply H2. lia.
Qed.

Lemma bmin_returned_witness :
  (0 <= 5 < 10 /\ is_five [5] = Ok 1 /\
   forall j, 0 <= j < 5 -> exists v, is_five [j] = Ok v /\ v <> 1) \/
  (5 = 10 /\ forall j, 0 <= j < 10 -> exists v, is_five [j] = Ok v /\ v <> 1).
Proof. apply (bmin_returned is_five 10 5). reflexivity. Defined.

(** X26: [Proj] does not reject a negative index: [Proj(-i)] with
    [1 <= i <= len(args)] returns the [i]-th argument from the end, and
    with [i > len(args)] raises [IndexError]. *)
Theorem Proj_call_negative_index (i : nat) (args : list Z) :
  ((0 < i <= length args)%nat ->
     Prf.Proj_call (- Z.of_nat i) args = Ok (nth (length args - i) args 0)) /\
  ((length args < i)%nat ->
     Prf.Proj_call (- Z.of_nat i) args = Raise IndexError).
Proof.
  unfold Prf.Proj_call. split; intros Hi.
  - destruct (Z.leb_spec (Z.of_nat (length args)) (- Z.of_nat i)); [lia|].
    now apply tuple_getitem_from_end.
  - destruct (Z.leb_spec (Z.of_nat (length args)) (- Z.of_nat i)); [lia|].
    now apply tuple_getitem_before_start.
Qed.

Lemma Proj_call_negative_index_witness :
  Prf.Proj_call (- Z.of_nat 1) [10; 20; 30] = Ok 30 /\
  Prf.Proj_call (- Z.of_nat 4) [10; 20; 30] = Raise IndexError.
Proof.
  split.
  - apply (proj1 (Proj_call_negative_index 1 [10; 20; 30])). simpl. lia.
  - apply (proj2 (Proj_call_negative_index 4 [10; 20; 30])). simpl. lia.
Defined.

(** ** Results on the shell *)

(** X27: whitespace before and after a line, in the sense of
    [str.strip()] (every code point [str.isspace()] holds for), does not
    change what the shell does with it, whatever the host. *)
Theorem repl_step_ignores_whitespace (h : Prf.host) (l s r : Prf.str) :
  blank l = true -> blank r = true ->
  Prf.repl_step h (Prf.Line (l ++ s ++ r)) = Prf.repl_step h (Prf.Line s).
Proof.
  intros Hl Hr. unfold Prf.repl_step.
  rewrite (strip_surrounded l s r Hl Hr). reflexivity.
Qed.

Lemma repl_step_ignores_whitespace_witness :
  Prf.repl_step sample_host
    (Prf.Line ([8195%N] ++ Prf.text "quit" ++ [12288%N]))
  = Prf.repl_step sample_host (Prf.Line (Prf.text "quit")).
Proof. apply repl_step_ignores_whitespace; reflexivity. Defined.

(** ** Results on stack depth *)

(** X28: for every function object built from [Zero], [Succ], [Proj],
    [Compose] and [PrimRec], and every argument tuple, the call needs at
    most twice as many frames as the constructors are nested, whatever the
    numbers passed; and counting frames does not change the outcome. *)
Theorem node_stack_depth (v : Nodes.node) (args : list Z) :
  (StackDepth.depth (Nodes.call v args) <= 2 * Nodes.height v)%nat /\
  StackDepth.outcome (Nodes.call v args) = Nodes.apply v args.
Proof. split; [apply node_depth|apply node_outcome]. Qed.

(** [add(1000000, 7)] returns 1000007 with at most four nested frames. *)
Lemma add_million_completes :
  StackDepth.outcome (StackDepth.add [1000000; 7]) = Ok 1000007 /\
  (StackDepth.depth (StackDepth.add [1000000%Z; 7%Z]) <= 4)%nat.
Proof.
  split.
  - rewrite outcome_add, add_spec_Z by lia. reflexivity.
  - unfold StackDepth.add.
    apply (depth_PrimRec_call _ _ 3 add_base_depth add_step_depth).
Qed.


(** X29: [add], [mult] and [factorial] of prf.py are such objects; a call of
    any of them, on any arguments, never has more than 6, 10 and 14 frames
    nested, and computes what the plain reading computes. *)
Theorem arithmetic_stack_bounds (args : list Z) :
  ((StackDepth.depth (Nodes.call Nodes.add args) <= 6)%nat /\
   StackDepth.outcome (Nodes.call Nodes.add args) = Prf.add args) /\
  ((StackDepth.depth (Nodes.call Nodes.mult args) <= 10)%nat /\
   StackDepth.outcome (Nodes.call Nodes.mult args) = Prf.mult args) /\
  ((StackDepth.depth (Nodes.call Nodes.factorial args) <= 14)%nat /\
   StackDepth.outcome (Nodes.call Nodes.factorial args) = Prf.factorial args).
Proof.
  pose proof (node_depth Nodes.add args) as Ha.
  pose proof (node_depth Nodes.mult args) as Hm.
  pose proof (node_depth Nodes.factorial args) as Hf.
  change (Nodes.height Nodes.add) with 3%nat in Ha.
  change (Nodes.height Nodes.mult) with 5%nat in Hm.
  change (Nodes.height Nodes.factorial) with 7%nat in Hf.
  repeat split; try lia; apply node_outcome.
Qed.
